(** * Talk front-end state slices: unread-counter store and guest-name store

    Shallow embedding of the unread-counter Vuex module (state, mutations,
    actions, emitted events) and of the guest-name store exercised by the
    test suite, with the properties stated about them.

    Modelling conventions.
    - A counter reported to the store is an integer-valued JavaScript number,
      given by its integer value ([Z]); a field that may be missing or
      [undefined] is an [option Z], and the idiom [x || 0] on it is [or0 x]
      (0 and [undefined] both give 0).  Counts that are not integers are not
      modelled, and an integer that is not a double is the value of no
      count.
    - The totals are JavaScript numbers, that is IEEE 754 binary64 values.
      On integer-valued operands [+] and [-] return the exact result rounded
      to the nearest value with a 53-bit significand, ties to even, and
      overflow to an infinity; [NaN] is absorbing.  [Number] holds the
      integer-valued numbers, the infinities and [NaN]; [roundToDouble] is
      the rounding.  Neither operation yields a negative zero from operands
      that are not negative zeros, so zero needs no sign.
    - A per-token dictionary is a plain object.  Its own entries, written by
      [Vue.set] and removed by [Vue.delete], are a [gmap string Z].  A read
      [obj[token]] yields the own entry when there is one; otherwise it
      yields [undefined], except for the names of members every such object
      already has ([foreignMembers]): those inherited from
      [Object.prototype], and the observer handle [__ob__] that Vue attaches
      to reactive state.  Such a member is an object or a function: it is
      truthy, and as an arithmetic operand it converts to [NaN].
    - [emit] on the process-wide event bus is modelled by the list of events
      a mutation or action emits, in order of emission. *)

From stdpp Require Import base gmap strings list fin_maps.
From Stdlib Require Import ZArith Lia.
From Stdlib Require Floats.PrimFloat Numbers.Cyclic.Int63.Uint63.

Open Scope Z_scope.

(** ** JavaScript numbers *)

(** The numbers the store computes with: integer-valued doubles, the two
    infinities and NaN. *)
Inductive Number : Type :=
  | Finite (value : Z)
  | PosInfinity
  | NegInfinity
  | NaN.

Coercion Finite : Z >-> Number.

#[global] Instance Number_eq_dec : EqDecision Number.
Proof. solve_decision. Defined.

(** 2^53: every integer up to it in magnitude is a double. *)
Definition maxExactInteger : Z := 9007199254740992.

(** The non-negative integer [a] rounded to a 53-bit significand, to
    nearest, ties to even (the exponent is not bounded here). *)
Definition roundMagnitude (a : Z) : Z :=
  if a <=? maxExactInteger then a
  else
    let e := Z.log2 a - 52 in
    let q := a / 2 ^ e in
    let r := a mod 2 ^ e in
    let half := 2 ^ (e - 1) in
    let up := (half <? r) || ((half =? r) && Z.odd q) in
    (if up then q + 1 else q) * 2 ^ e.

(** The double nearest to the integer [z]; magnitudes that round to 2^1024
    or more overflow to an infinity. *)
Definition roundToDouble (z : Z) : Number :=
  let m := roundMagnitude (Z.abs z) in
  if 2 ^ 1024 <=? m then (if z <? 0 then NegInfinity else PosInfinity)
  else Finite (Z.sgn z * m).

Module Number.

(** [x + y] *)
Definition add (x y : Number) : Number :=
  match x, y with
  | NaN, _ | _, NaN => NaN
  | PosInfinity, NegInfinity | NegInfinity, PosInfinity => NaN
  | PosInfinity, _ | _, PosInfinity => PosInfinity
  | NegInfinity, _ | _, NegInfinity => NegInfinity
  | Finite a, Finite b => roundToDouble (a + b)
  end.

(** [x - y] *)
Definition sub (x y : Number) : Number :=
  match x, y with
  | NaN, _ | _, NaN => NaN
  | PosInfinity, PosInfinity | NegInfinity, NegInfinity => NaN
  | PosInfinity, _ | _, NegInfinity => PosInfinity
  | NegInfinity, _ | _, PosInfinity => NegInfinity
  | Finite a, Finite b => roundToDouble (a - b)
  end.

End Number.

(** A value of [Number] that is a double: a finite one is its own rounding. *)
Definition Representable (x : Number) : Prop :=
  match x with
  | Finite z => roundToDouble z = Finite z
  | _ => True
  end.

(** [x || 0] on a possibly missing count. *)
Definition or0 (x : option Z) : Z :=
  match x with
  | Some n => n
  | None => 0
  end.

(** ** Reading a plain object used as a dictionary *)

(** The names a reactive plain object answers to without the store having
    set them: the members of [Object.prototype] and Vue's [__ob__]. *)
Definition foreignMembers : list string :=
  ["constructor"; "hasOwnProperty"; "isPrototypeOf"; "propertyIsEnumerable";
   "toLocaleString"; "toString"; "valueOf"; "__proto__";
   "__defineGetter__"; "__defineSetter__"; "__lookupGetter__";
   "__lookupSetter__"; "__ob__"].

(** What [obj[key]] yields. *)
Inductive Member : Type :=
  | Undefined
  | Count (value : Z)
  | Foreign.

(** [obj[key]]: the own entry, else a foreign member of that name, else
    [undefined]. *)
Definition getMember (obj : gmap string Z) (key : string) : Member :=
  match obj !! key with
  | Some value => Count value
  | None => if bool_decide (key ∈ foreignMembers) then Foreign else Undefined
  end.

(** [(obj[key] || 0)] as an operand of [-]: [undefined] and 0 give 0, a
    count gives itself, a foreign member is truthy and converts to NaN. *)
Definition memberOr0 (m : Member) : Number :=
  match m with
  | Undefined => Finite 0
  | Count value => Finite value
  | Foreign => NaN
  end.

(** ** The unread-counter store *)

Module EVENTS.
Definition UNREAD_COUNT_UPDATED : string := "talk:unread:updated".
End EVENTS.

(** Payload of the [talk:unread:updated] event. *)
Module UnreadCountEvent.
Record t : Type := mk {
  unreadMessages : Number;
  unreadMentions : Number;
  unreadMentionDirect : Number;
}.
End UnreadCountEvent.

(** One [emit(name, payload)] call on the event bus. *)
Record BusEvent : Type := Emitted {
  eventName : string;
  eventPayload : UnreadCountEvent.t;
}.

(** Payload of the mutations and actions: a token and three optional counts. *)
Module Payload.
Record t : Type := mk {
  token : string;
  unreadMessages : option Z;
  unreadMentions : option Z;
  unreadMentionDirect : option Z;
}.
End Payload.

(** An entry of the root getter [conversationsList]. *)
Module Conversation.
Record t : Type := mk {
  token : string;
  unreadMessages : option Z;
  unreadMention : option Z;
  unreadMentionDirect : option Z;
}.
End Conversation.

Record State : Type := mkState {
  totalUnreadMessages : Number;
  totalUnreadMentions : Number;
  totalUnreadMentionDirect : Number;
  unreadMessagesMap : gmap string Z;
  unreadMentionsMap : gmap string Z;
  unreadMentionDirectMap : gmap string Z;
}.

(** [const state = { ... }] *)
Definition state : State :=
  {| totalUnreadMessages := 0;
     totalUnreadMentions := 0;
     totalUnreadMentionDirect := 0;
     unreadMessagesMap := ∅;
     unreadMentionsMap := ∅;
     unreadMentionDirectMap := ∅ |}.

Module getters.
Definition getTotalUnreadMessages (st : State) : Number := totalUnreadMessages st.
Definition getTotalUnreadMentions (st : State) : Number := totalUnreadMentions st.
Definition getTotalUnreadMentionDirect (st : State) : Number :=
  totalUnreadMentionDirect st.
End getters.

(** The event emitted "with current totals" by a mutation on state [st]. *)
Definition emitTotals (st : State) : BusEvent :=
  Emitted EVENTS.UNREAD_COUNT_UPDATED
    (UnreadCountEvent.mk (totalUnreadMessages st)
                         (totalUnreadMentions st)
                         (totalUnreadMentionDirect st)).

(** A mutation or action returns the new state and the events it emitted. *)
Definition Effect : Type := (State * list BusEvent)%type.

Module mutations.

Definition UPDATE_CONVERSATION_COUNTS (st : State) (p : Payload.t) : Effect :=
  let token := Payload.token p in
  (* Calculate differences *)
  let messageDiff :=
    Number.sub (or0 (Payload.unreadMessages p))
               (memberOr0 (getMember (unreadMessagesMap st) token)) in
  let mentionsDiff :=
    Number.sub (or0 (Payload.unreadMentions p))
               (memberOr0 (getMember (unreadMentionsMap st) token)) in
  let mentionDirectDiff :=
    Number.sub (or0 (Payload.unreadMentionDirect p))
               (memberOr0 (getMember (unreadMentionDirectMap st) token)) in
  (* Update maps, then totals *)
  let st' :=
    {| unreadMessagesMap :=
         <[token := or0 (Payload.unreadMessages p)]> (unreadMessagesMap st);
       unreadMentionsMap :=
         <[token := or0 (Payload.unreadMentions p)]> (unreadMentionsMap st);
       unreadMentionDirectMap :=
         <[token := or0 (Payload.unreadMentionDirect p)]>
           (unreadMentionDirectMap st);
       totalUnreadMessages := Number.add (totalUnreadMessages st) messageDiff;
       totalUnreadMentions := Number.add (totalUnreadMentions st) mentionsDiff;
       totalUnreadMentionDirect :=
         Number.add (totalUnreadMentionDirect st) mentionDirectDiff |} in
  (* Emit event with current totals *)
  (st', [emitTotals st']).

Definition REMOVE_CONVERSATION (st : State) (token : string) : Effect :=
  let st' :=
    {| (* Subtract the conversation's counts from totals *)
       totalUnreadMessages :=
         Number.sub (totalUnreadMessages st)
                    (memberOr0 (getMember (unreadMessagesMap st) token));
       totalUnreadMentions :=
         Number.sub (totalUnreadMentions st)
                    (memberOr0 (getMember (unreadMentionsMap st) token));
       totalUnreadMentionDirect :=
         Number.sub (totalUnreadMentionDirect st)
                    (memberOr0 (getMember (unreadMentionDirectMap st) token));
       (* Remove from maps *)
       unreadMessagesMap := delete token (unreadMessagesMap st);
       unreadMentionsMap := delete token (unreadMentionsMap st);
       unreadMentionDirectMap := delete token (unreadMentionDirectMap st) |} in
  (* Emit event with current totals *)
  (st', [emitTotals st']).

Definition RESET_ALL_COUNTERS (st : State) : Effect :=
  ({| totalUnreadMessages := 0;
      totalUnreadMentions := 0;
      totalUnreadMentionDirect := 0;
      unreadMessagesMap := ∅;
      unreadMentionsMap := ∅;
      unreadMentionDirectMap := ∅ |}, []).

End mutations.

(** Sequencing of two effects: the second runs on the state left by the
    first, and the emitted events are concatenated in order. *)
Definition andThen (e : Effect) (k : State → Effect) : Effect :=
  let '(st1, evs1) := e in
  let '(st2, evs2) := k st1 in
  (st2, evs1 ++ evs2).

Module actions.

Definition updateConversationCounts (st : State) (p : Payload.t) : Effect :=
  mutations.UPDATE_CONVERSATION_COUNTS st p.

Definition removeConversation (st : State) (token : string) : Effect :=
  mutations.REMOVE_CONVERSATION st token.

(** [conversations.forEach(conversation => dispatch(...))] *)
Fixpoint forEachConversation (st : State) (cs : list Conversation.t) : Effect :=
  match cs with
  | [] => (st, [])
  | conversation :: rest =>
      andThen
        (updateConversationCounts st
           (Payload.mk (Conversation.token conversation)
              (Some (or0 (Conversation.unreadMessages conversation)))
              (Some (or0 (Conversation.unreadMention conversation)))
              (Some (or0 (Conversation.unreadMentionDirect conversation)))))
        (λ st1, forEachConversation st1 rest)
  end.

(** [conversationsList] is the root getter read by the action; [None] is a
    missing ([undefined]) list.  The trailing [console.debug] has no effect
    on the store or the bus. *)
Definition recalculateTotalUnreadCounters
    (st : State) (conversationsList : option (list Conversation.t)) : Effect :=
  let conversations := conversationsList in
  (* Reset all counters *)
  andThen (mutations.RESET_ALL_COUNTERS st) (λ st1,
    match conversations with
    | None => (st1, [])
    | Some [] => (st1, [])
    | Some cs => forEachConversation st1 cs
    end).

End actions.

(** ** The guest-name store *)

(** Localization: [t('spreed', 'Guest')], the localized default guest name. *)
Class L10n : Type := { defaultGuestName : string }.

(** The untranslated locale, the one the test suite runs in. *)
Definition l10n_untranslated : L10n := {| defaultGuestName := "Guest" |}.

(** The [actor] argument of [addGuestName]. *)
Record Actor : Type := mkActor {
  token : string;
  actorId : string;
  actorDisplayName : string;
}.

(** Error payload of a rejected remote call (an OCS error response). *)
Record OCSError : Type := mkOCSError { status : Z }.

(** Result of awaiting the remote [setGuestUserName(token, name)]. *)
Inductive RemoteResult : Type :=
  | Resolved
  | RejectedWith (error : OCSError).

(** Settlement of the promise an async store action returns to its caller. *)
Inductive Settled : Type :=
  | Fulfilled
  | Rejected (error : OCSError).

(** Everything [submitGuestUsername] reads or writes: the store's name map,
    the current user's actor id and display name held by the global store,
    the nickname persisted through [setGuestNickname], the recorded calls of
    the remote service and the console's error log. *)
Record Session : Type := mkSession {
  guestNames : gmap (string * string) string;
  currentActorId : string;
  displayName : string;
  persistedNickname : option string;
  remoteCalls : list (string * string);
  consoleErrors : list OCSError;
}.

Module guestNameStore.

(** Modelled from the spec: the data model's notion of an unset name
    (guestName.js is not among the sources): there is no entry for
    (token, actorId), or the entry is empty. *)
Definition isUnset (entry : option string) : bool :=
  match entry with
  | None => true
  | Some name => bool_decide (name = "")
  end.

(** Modelled from the spec: [getGuestName] of the guest-name store
    (guestName.js is not among the sources): the stored name, or the
    localized default when the entry is absent or empty. *)
Definition getGuestName `{!L10n}
    (names : gmap (string * string) string) (token actorId : string) : string :=
  match names !! (token, actorId) with
  | Some name => if bool_decide (name = "") then defaultGuestName else name
  | None => defaultGuestName
  end.

(** Modelled from the spec: [getGuestNameWithGuestSuffix] of the guest-name
    store: the guest name followed by the "(guest)" marker, except that the
    localized default is returned as it is. *)
Definition getGuestNameWithGuestSuffix `{!L10n}
    (names : gmap (string * string) string) (token actorId : string) : string :=
  let displayName := getGuestName names token actorId in
  if bool_decide (displayName = defaultGuestName) then displayName
  else displayName +:+ " (guest)".

(** Modelled from the spec: [addGuestName] of the guest-name store: with
    [noUpdate] the name is set only if it is currently unset for
    (token, actorId); without it the name is always overwritten; an empty
    incoming name stands for the localized default. *)
Definition addGuestName `{!L10n}
    (names : gmap (string * string) string) (actor : Actor) (noUpdate : bool)
    : gmap (string * string) string :=
  let key := (token actor, actorId actor) in
  let name :=
    if bool_decide (actorDisplayName actor = "") then defaultGuestName
    else actorDisplayName actor in
  if noUpdate then
    if isUnset (names !! key) then <[key := name]> names else names
  else <[key := name]> names.

(** Modelled from the spec: [submitGuestUsername] of the guest-name store.
    The local name of the current actor is updated first and the remote
    service is called; when the call resolves, the global display name is
    set and the nickname persisted (the localized default for an empty
    name); when it rejects, the local name and the display name go back to
    the name held before, the error is logged and the action still
    fulfils.  [setGuestUserName] is the remote service. *)
Definition submitGuestUsername `{!L10n}
    (setGuestUserName : string → string → RemoteResult)
    (s : Session) (token name : string) : Session * Settled :=
  let actorId := currentActorId s in
  let previousName := getGuestName (guestNames s) token actorId in
  let updated := addGuestName (guestNames s) (mkActor token actorId name) false in
  let calls := remoteCalls s ++ [(token, name)] in
  match setGuestUserName token name with
  | Resolved =>
      ({| guestNames := updated;
          currentActorId := actorId;
          displayName := name;
          persistedNickname :=
            Some (if bool_decide (name = "") then defaultGuestName else name);
          remoteCalls := calls;
          consoleErrors := consoleErrors s |}, Fulfilled)
  | RejectedWith error =>
      ({| guestNames :=
            addGuestName updated (mkActor token actorId previousName) false;
          currentActorId := actorId;
          displayName := previousName;
          persistedNickname := persistedNickname s;
          remoteCalls := calls;
          consoleErrors := consoleErrors s ++ [error] |}, Fulfilled)
  end.

End guestNameStore.

(** ** Vocabulary of the statements *)

(** The three counters tracked per conversation. *)
Inductive Field : Type := Messages | Mentions | MentionDirect.

Definition totalOf (f : Field) (st : State) : Number :=
  match f with
  | Messages => totalUnreadMessages st
  | Mentions => totalUnreadMentions st
  | MentionDirect => totalUnreadMentionDirect st
  end.

Definition mapOf (f : Field) (st : State) : gmap string Z :=
  match f with
  | Messages => unreadMessagesMap st
  | Mentions => unreadMentionsMap st
  | MentionDirect => unreadMentionDirectMap st
  end.

Definition payloadField (f : Field) (p : Payload.t) : option Z :=
  match f with
  | Messages => Payload.unreadMessages p
  | Mentions => Payload.unreadMentions p
  | MentionDirect => Payload.unreadMentionDirect p
  end.

Definition conversationField (f : Field) (c : Conversation.t) : option Z :=
  match f with
  | Messages => Conversation.unreadMessages c
  | Mentions => Conversation.unreadMention c
  | MentionDirect => Conversation.unreadMentionDirect c
  end.

(** Sum of the counts stored in a per-token map. *)
Definition sumCounts (m : gmap string Z) : Z :=
  map_fold (λ _ count acc, count + acc) 0 m.

(** The tokens the store currently tracks. *)
Definition trackedTokens (st : State) : gset string := dom (unreadMessagesMap st).

(** Every total is the sum of its per-token map, and the three maps track
    the same tokens. *)
Definition totalsConsistent (st : State) : Prop :=
  (∀ f, totalOf f st = sumCounts (mapOf f st)) ∧
  (∀ f, dom (mapOf f st) = trackedTokens st).

(** The two counting operations a client dispatches. *)
Inductive CountOp : Type :=
  | DoUpdate (p : Payload.t)
  | DoRemove (token : string).

Definition dispatch (st : State) (op : CountOp) : Effect :=
  match op with
  | DoUpdate p => actions.updateConversationCounts st p
  | DoRemove token => actions.removeConversation st token
  end.

Fixpoint dispatchAll (st : State) (ops : list CountOp) : Effect :=
  match ops with
  | [] => (st, [])
  | op :: rest => andThen (dispatch st op) (λ st1, dispatchAll st1 rest)
  end.

(** The mutations of the store, as committed. *)
Inductive Mutation : Type :=
  | CommitUpdate (p : Payload.t)
  | CommitRemove (token : string)
  | CommitReset.

Definition commit (st : State) (m : Mutation) : Effect :=
  match m with
  | CommitUpdate p => mutations.UPDATE_CONVERSATION_COUNTS st p
  | CommitRemove token => mutations.REMOVE_CONVERSATION st token
  | CommitReset => mutations.RESET_ALL_COUNTERS st
  end.

(** The states the store can be in: the initial one and those its
    mutations lead to. *)
Inductive Reachable : State → Prop :=
  | reachable_initial : Reachable state
  | reachable_commit (st : State) (m : Mutation) :
      Reachable st → Reachable (commit st m).1.

(** What every reachable state satisfies: the totals are doubles, the three
    maps track the same tokens, and once a token naming a foreign member is
    tracked the totals are NaN. *)
Definition wellFormed (st : State) : Prop :=
  (∀ f, Representable (totalOf f st)) ∧
  (∀ f, dom (mapOf f st) = trackedTokens st) ∧
  (∀ token, token ∈ foreignMembers → token ∈ trackedTokens st →
            ∀ f, totalOf f st = NaN).

(** A store tracking one conversation, "t1", with five unread messages and
    one mention. *)
Definition oneConversationState : State :=
  (actions.updateConversationCounts state
     (Payload.mk "t1" (Some 5) (Some 1) (Some 0))).1.

(** *** Tokens and ranges for which the arithmetic is exact *)

(** A token that is not the name of a foreign member: an absent entry for
    it reads as [undefined]. *)
Definition ordinaryToken (token : string) : Prop := token ∉ foreignMembers.

(** The conversation a counting operation is about. *)
Definition opToken (op : CountOp) : string :=
  match op with
  | DoUpdate p => Payload.token p
  | DoRemove token => token
  end.

(** An operation that reports no negative count. *)
Definition nonNegativeOp (op : CountOp) : Prop :=
  match op with
  | DoUpdate p => ∀ f, 0 ≤ or0 (payloadField f p)
  | DoRemove _ => True
  end.

(** The counts a store tracks add up to at most 2^53, per counter. *)
Definition sumsWithinRange (st : State) : Prop :=
  ∀ f, sumCounts (mapOf f st) ≤ maxExactInteger.

(** The tracked counts stay within that range after every operation of a
    run. *)
Fixpoint sumsStayWithinRange (st : State) (ops : list CountOp) : Prop :=
  match ops with
  | [] => True
  | op :: rest =>
      sumsWithinRange (dispatch st op).1 ∧
      sumsStayWithinRange (dispatch st op).1 rest
  end.

(** A run on which the store's arithmetic is exact: ordinary tokens,
    non-negative counts, and tracked counts that stay within range. *)
Definition exactRun (st : State) (ops : list CountOp) : Prop :=
  Forall (λ op, ordinaryToken (opToken op)) ops ∧
  Forall nonNegativeOp ops ∧
  sumsStayWithinRange st ops.

(** A store in which every total is the exact sum of non-negative tracked
    counts that are within range. *)
Definition exactStore (st : State) : Prop :=
  totalsConsistent st ∧
  (∀ f token count, mapOf f st !! token = Some count → 0 ≤ count) ∧
  sumsWithinRange st.

(** ** Vocabulary of the further properties *)

(** The payload [recalculateTotalUnreadCounters] dispatches for a listed
    conversation: its token and [field || 0] for each counter. *)
Definition conversationPayload (c : Conversation.t) : Payload.t :=
  Payload.mk (Conversation.token c)
    (Some (or0 (Conversation.unreadMessages c)))
    (Some (or0 (Conversation.unreadMention c)))
    (Some (or0 (Conversation.unreadMentionDirect c))).

(** Sum of one counter over a list of conversations, a missing field
    counting as zero. *)
Definition listTotal (f : Field) (cs : list Conversation.t) : Z :=
  foldr (λ c acc, or0 (conversationField f c) + acc) 0 cs.

(** The tokens of a conversation list, in order. *)
Definition listTokens (cs : list Conversation.t) : list string :=
  Conversation.token <$> cs.

(** The updates a recalculation replays. *)
Definition listUpdates (cs : list Conversation.t) : list CountOp :=
  (λ c, DoUpdate (conversationPayload c)) <$> cs.

(** A list for which a recalculation is exact: ordinary tokens,
    non-negative counts that add up to at most 2^53 per counter. *)
Definition exactList (cs : list Conversation.t) : Prop :=
  Forall ordinaryToken (listTokens cs) ∧
  (∀ c f, c ∈ cs → 0 ≤ or0 (conversationField f c)) ∧
  (∀ f, listTotal f cs ≤ maxExactInteger).

(** Two listed conversations, some of whose counters are missing. *)
Definition conversationT1 : Conversation.t :=
  Conversation.mk "t1" (Some 5) (Some 1) None.

Definition conversationT2 : Conversation.t :=
  Conversation.mk "t2" (Some 2) None (Some 1).

(** A stale listing of "t1", as a list with a repeated token has it. *)
Definition conversationT1Stale : Conversation.t :=
  Conversation.mk "t1" (Some 9) (Some 9) (Some 9).

(** A store whose totals disagree with its maps. *)
Definition driftedState : State :=
  {| totalUnreadMessages := 7;
     totalUnreadMentions := 2;
     totalUnreadMentionDirect := 1;
     unreadMessagesMap := ∅;
     unreadMentionsMap := <["gone" := 4]> ∅;
     unreadMentionDirectMap := ∅ |}.

(** *** Inputs on which the totals leave the tracked counts *)

(** An update of a conversation whose token is the name of an inherited
    member. *)
Definition inheritedNamePayload : Payload.t :=
  Payload.mk "constructor" (Some 5) (Some 1) (Some 0).

(** A run past 2^53: "t1" reports 2^53 unread messages, "t2" reports one,
    then "t1" is removed. *)
Definition roundingRun : list CountOp :=
  [DoUpdate (Payload.mk "t1" (Some maxExactInteger) (Some 0) (Some 0));
   DoUpdate (Payload.mk "t2" (Some 1) (Some 0) (Some 0));
   DoRemove "t1"].

(** *** Comparison with binary64 arithmetic *)

(** The double of integer value [z], for |z| < 2^63. *)
Definition binary64 (z : Z) : PrimFloat.float :=
  if z <? 0 then PrimFloat.opp (PrimFloat.of_uint63 (Uint63.of_Z (- z)))
  else PrimFloat.of_uint63 (Uint63.of_Z z).

Definition toBinary64 (x : Number) : PrimFloat.float :=
  match x with
  | Finite z => binary64 z
  | PosInfinity => PrimFloat.infinity
  | NegInfinity => PrimFloat.neg_infinity
  | NaN => PrimFloat.nan
  end.

(** Integers around the points where the spacing of doubles changes. *)
Definition sampleIntegers : list Z :=
  let near (c step : Z) :=
    (λ k, c + k * step) <$> [-4; -3; -2; -1; 0; 1; 2; 3; 4] in
  let positive :=
    [0; 1; 2; 3; 5; 1000] ++ near (2 ^ 52) 1 ++ near (2 ^ 53) 2
      ++ [2 ^ 53 - 1; 2 ^ 53 - 3] ++ near (2 ^ 54) 4 ++ near (2 ^ 55) 8
      ++ near (2 ^ 60) 256 in
  positive ++ (Z.opp <$> positive).

(** [Number.add] and [Number.sub] give the double that the primitive
    binary64 operations give. *)
Definition agreesWithBinary64 (a b : Z) : bool :=
  PrimFloat.eqb (PrimFloat.add (binary64 a) (binary64 b))
                (toBinary64 (Number.add (Finite a) (Finite b)))
  && PrimFloat.eqb (PrimFloat.sub (binary64 a) (binary64 b))
                   (toBinary64 (Number.sub (Finite a) (Finite b))).

(** ** Fixtures of the guest-name test suite *)

Module fixtures.

Definition actor1 : Actor :=
  mkActor "token-1" "actor-id1" "actor-display-name-one".

Definition actor1Altered : Actor :=
  mkActor "token-1" "actor-id1" "actor-display-name-another".

Definition actor1Cleared : Actor := mkActor "token-1" "actor-id1" "".

Definition actor1Default : Actor :=
  mkActor "token-1" "actor-id1" (@defaultGuestName l10n_untranslated).

Definition actor1Old : Actor := mkActor "token-1" "actor-id1" "old actor 1".

(** A fresh store: [setActivePinia(createPinia())]. *)
Definition freshNames : gmap (string * string) string := ∅.

(** The session after [setCurrentUser({ uid: 'actor-id1' })] on fresh
    stores, with the given name map. *)
Definition sessionOf (names : gmap (string * string) string) : Session :=
  {| guestNames := names;
     currentActorId := "actor-id1";
     displayName := "";
     persistedNickname := None;
     remoteCalls := [];
     consoleErrors := [] |}.

(** [setGuestUserName.mockResolvedValue()] *)
Definition mockResolved (token name : string) : RemoteResult := Resolved.

(** [setGuestUserName.mockRejectedValue(error)] with status 400. *)
Definition mockRejected (token name : string) : RemoteResult :=
  RejectedWith (mkOCSError 400).

Definition addGuestName := @guestNameStore.addGuestName l10n_untranslated.
Definition getGuestName := @guestNameStore.getGuestName l10n_untranslated.
Definition getGuestNameWithGuestSuffix :=
  @guestNameStore.getGuestNameWithGuestSuffix l10n_untranslated.
Definition submitGuestUsername :=
  @guestNameStore.submitGuestUsername l10n_untranslated.

End fixtures.

(** ** Properties of the number model *)

Lemma maxExactInteger_pow : maxExactInteger = 2 ^ 53.
Proof. reflexivity. Qed.

Lemma maxExactInteger_below_overflow : maxExactInteger < 2 ^ 1024.
Proof. rewrite maxExactInteger_pow. apply Z.pow_lt_mono_r; lia. Qed.

Lemma roundMagnitude_exact (a : Z) :
  a ≤ maxExactInteger → roundMagnitude a = a.
Proof.
  intros Ha. unfold roundMagnitude. by rewrite (proj2 (Z.leb_le _ _) Ha).
Qed.

(** Integers of magnitude at most 2^53 are doubles. *)
Lemma roundToDouble_exact (z : Z) :
  Z.abs z ≤ maxExactInteger → roundToDouble z = Finite z.
Proof.
  intros Hz. unfold roundToDouble. rewrite roundMagnitude_exact by done.
  pose proof maxExactInteger_below_overflow.
  rewrite (proj2 (Z.leb_gt _ _)) by lia.
  f_equal. destruct z; simpl; lia.
Qed.

(** A 53-bit significand times a power of two is left alone. *)
Lemma roundMagnitude_scaled (q e : Z) :
  2 ^ 52 ≤ q ≤ 2 ^ 53 → 0 ≤ e → roundMagnitude (q * 2 ^ e) = q * 2 ^ e.
Proof.
  intros [Hlow Hhigh] He. unfold roundMagnitude.
  destruct (q * 2 ^ e <=? maxExactInteger) eqn:Hsmall; [done|].
  apply Z.leb_gt in Hsmall. rewrite maxExactInteger_pow in Hsmall.
  assert (0 < 2 ^ e) as Hpow by (apply Z.pow_pos_nonneg; lia).
  assert (0 < 2 ^ 52) as Hpow52 by (apply Z.pow_pos_nonneg; lia).
  destruct (decide (q = 2 ^ 53)) as [->|Hne].
  - rewrite Z.log2_mul_pow2 by lia.
    rewrite Z.log2_pow2 by lia.
    replace (e + 53 - 52) with (e + 1) by lia.
    replace (2 ^ 53 * 2 ^ e) with (2 ^ 52 * 2 ^ (e + 1))
      by (rewrite Z.pow_add_r by lia; change (2 ^ 53) with (2 ^ 52 * 2 ^ 1); lia).
    assert (0 < 2 ^ (e + 1)) by (apply Z.pow_pos_nonneg; lia).
    rewrite Z.div_mul, Z.mod_mul by lia.
    replace (e + 1 - 1) with e by lia.
    rewrite (proj2 (Z.ltb_ge _ _)) by lia.
    rewrite (proj2 (Z.eqb_neq _ _)) by lia.
    done.
  - assert (Z.log2 q = 52) as Hlog.
    { apply Z.log2_unique; [lia|]. change (Z.succ 52) with 53. lia. }
    rewrite Z.log2_mul_pow2, Hlog by lia.
    replace (e + 52 - 52) with e by lia.
    rewrite Z.div_mul, Z.mod_mul by lia.
    assert (1 ≤ e) as He1.
    { destruct (decide (e = 0)) as [->|]; [|lia].
      rewrite Z.pow_0_r in Hsmall. lia. }
    assert (0 < 2 ^ (e - 1)) by (apply Z.pow_pos_nonneg; lia).
    rewrite (proj2 (Z.ltb_ge _ _)) by lia.
    rewrite (proj2 (Z.eqb_neq _ _)) by lia.
    done.
Qed.

Lemma roundMagnitude_idempotent (a : Z) :
  0 ≤ a → roundMagnitude (roundMagnitude a) = roundMagnitude a.
Proof.
  intros Ha. unfold roundMagnitude at 2 3.
  destruct (a <=? maxExactInteger) eqn:Hsmall.
  { apply Z.leb_le in Hsmall. by apply roundMagnitude_exact. }
  apply Z.leb_gt in Hsmall. rewrite maxExactInteger_pow in Hsmall.
  assert (0 < 2 ^ 53) as Hpow53 by (apply Z.pow_pos_nonneg; lia).
  assert (53 ≤ Z.log2 a) as Hlog by (apply Z.log2_le_pow2; lia).
  destruct (Z.log2_spec a) as [Hlower Hupper]; [lia|].
  set (e := Z.log2 a - 52) in *.
  replace (Z.log2 a) with (52 + e) in Hlower, Hupper by lia.
  replace (Z.succ (52 + e)) with (53 + e) in Hupper by lia.
  rewrite Z.pow_add_r in Hlower, Hupper by lia.
  assert (0 < 2 ^ e) as Hpow by (apply Z.pow_pos_nonneg; lia).
  assert (2 ^ 52 ≤ a / 2 ^ e) as Hq1 by (apply Z.div_le_lower_bound; lia).
  assert (a / 2 ^ e < 2 ^ 53) as Hq2 by (apply Z.div_lt_upper_bound; lia).
  apply roundMagnitude_scaled; [|lia].
  destruct (_ || _); lia.
Qed.

Lemma roundMagnitude_nonneg (a : Z) : 0 ≤ a → 0 ≤ roundMagnitude a.
Proof.
  intros Ha. unfold roundMagnitude.
  destruct (a <=? maxExactInteger) eqn:Hsmall; [done|].
  apply Z.leb_gt in Hsmall. rewrite maxExactInteger_pow in Hsmall.
  assert (0 < 2 ^ 53) by (apply Z.pow_pos_nonneg; lia).
  assert (53 ≤ Z.log2 a) by (apply Z.log2_le_pow2; lia).
  assert (0 < 2 ^ (Z.log2 a - 52)) by (apply Z.pow_pos_nonneg; lia).
  assert (0 ≤ a / 2 ^ (Z.log2 a - 52)) by (apply Z.div_pos; lia).
  destruct (_ || _); lia.
Qed.

(** Rounding yields a double. *)
Lemma roundToDouble_representable (z : Z) : Representable (roundToDouble z).
Proof.
  unfold roundToDouble at 1.
  destruct (2 ^ 1024 <=? roundMagnitude (Z.abs z)) eqn:Hover.
  { by destruct (z <? 0). }
  pose proof (roundMagnitude_nonneg (Z.abs z) (Z.abs_nonneg z)) as Hnonneg.
  pose proof (roundMagnitude_idempotent (Z.abs z) (Z.abs_nonneg z)) as Hidem.
  set (m := roundMagnitude (Z.abs z)) in *.
  simpl. unfold roundToDouble.
  assert (Z.abs (Z.sgn z * m) = m) as ->.
  { destruct z; simpl; [|lia|lia]. subst m. by rewrite roundMagnitude_exact. }
  rewrite Hidem, Hover. f_equal.
  destruct z; simpl; [done| |]; destruct m; simpl; lia.
Qed.

Lemma add_representable (x y : Number) : Representable (Number.add x y).
Proof. destruct x, y; simpl; try done; apply roundToDouble_representable. Qed.

Lemma sub_representable (x y : Number) : Representable (Number.sub x y).
Proof. destruct x, y; simpl; try done; apply roundToDouble_representable. Qed.

(** [x - 0] is [x]. *)
Lemma sub_zero (x : Number) : Representable x → Number.sub x (Finite 0) = x.
Proof.
  destruct x as [z| | |]; simpl; try done.
  intros Hz. by rewrite Z.sub_0_r.
Qed.

Lemma add_exact (a b : Z) :
  Z.abs (a + b) ≤ maxExactInteger →
  Number.add (Finite a) (Finite b) = Finite (a + b).
Proof. apply roundToDouble_exact. Qed.

Lemma sub_exact (a b : Z) :
  Z.abs (a - b) ≤ maxExactInteger →
  Number.sub (Finite a) (Finite b) = Finite (a - b).
Proof. apply roundToDouble_exact. Qed.

Lemma add_NaN_r (x : Number) : Number.add x NaN = NaN.
Proof. by destruct x. Qed.

Lemma sub_NaN_r (x : Number) : Number.sub x NaN = NaN.
Proof. by destruct x. Qed.

(** The integers sampled are doubles, and on them [Number.add] and
    [Number.sub] return what the primitive binary64 addition and
    subtraction return. *)
Example arithmetic_agrees_with_binary64 :
  forallb (λ a, bool_decide (roundToDouble a = Finite a)) sampleIntegers = true ∧
  forallb (λ a, forallb (agreesWithBinary64 a) sampleIntegers) sampleIntegers
  = true.
Proof. split; vm_compute; reflexivity. Qed.

(** ** Reading a dictionary *)

Lemma getMember_tracked (obj : gmap string Z) (key : string) (value : Z) :
  obj !! key = Some value → getMember obj key = Count value.
Proof. intros Hlookup. unfold getMember. by rewrite Hlookup. Qed.

Lemma getMember_ordinary (obj : gmap string Z) (key : string) :
  ordinaryToken key → memberOr0 (getMember obj key) = Finite (or0 (obj !! key)).
Proof.
  intros Hordinary. unfold getMember.
  destruct (obj !! key); [done|].
  by rewrite bool_decide_eq_false_2.
Qed.

Lemma getMember_foreign (obj : gmap string Z) (key : string) :
  ¬ ordinaryToken key → obj !! key = None →
  memberOr0 (getMember obj key) = NaN.
Proof.
  intros Hforeign Hnone. unfold getMember. rewrite Hnone.
  rewrite bool_decide_eq_true_2; [done|].
  unfold ordinaryToken in Hforeign. by apply dec_stable.
Qed.

Lemma or0_default (x : option Z) : or0 x = default 0 x.
Proof. by destruct x. Qed.

(** ** Properties of the unread-counter store *)

(** [sumCounts] adds up the counts of the tracked (token, count) entries. *)
Lemma sumCounts_entries (m : gmap string Z) :
  sumCounts m = foldr Z.add 0 (map_to_list m).*2.
Proof.
  unfold sumCounts. rewrite map_fold_foldr.
  induction (map_to_list m) as [|[token count] entries IH]; simpl;
    [done | by rewrite IH].
Qed.

Example sumCounts_two_tokens :
  sumCounts (<["t1" := 5]> (<["t2" := 3]> ∅)) = 8.
Proof. vm_compute. reflexivity. Qed.

Lemma sumCounts_empty : sumCounts ∅ = 0.
Proof. unfold sumCounts. apply map_fold_empty. Qed.

Lemma sumCounts_insert_fresh (m : gmap string Z) (k : string) (v : Z) :
  m !! k = None → sumCounts (<[k := v]> m) = v + sumCounts m.
Proof.
  intros Hk. unfold sumCounts.
  rewrite map_fold_insert_L; [done | intros; lia | done].
Qed.

Lemma sumCounts_delete (m : gmap string Z) (k : string) :
  sumCounts (delete k m) = sumCounts m - or0 (m !! k).
Proof.
  destruct (m !! k) as [v|] eqn:Hk; simpl.
  - rewrite <- (insert_delete_id m k v) at 2 by done.
    rewrite sumCounts_insert_fresh by apply lookup_delete_eq. lia.
  - rewrite delete_id by done. lia.
Qed.

Lemma sumCounts_insert (m : gmap string Z) (k : string) (v : Z) :
  sumCounts (<[k := v]> m) = sumCounts m + (v - or0 (m !! k)).
Proof.
  rewrite <- insert_delete_eq.
  rewrite sumCounts_insert_fresh by apply lookup_delete_eq.
  rewrite sumCounts_delete. lia.
Qed.

Lemma sumCounts_nonneg (m : gmap string Z) :
  (∀ token count, m !! token = Some count → 0 ≤ count) → 0 ≤ sumCounts m.
Proof.
  induction m as [|token count m Hfresh IH] using map_ind; intros Hcounts.
  - by rewrite sumCounts_empty.
  - rewrite sumCounts_insert_fresh by done.
    assert (0 ≤ count) by (apply (Hcounts token); apply lookup_insert_eq).
    assert (0 ≤ sumCounts m); [|lia].
    apply IH. intros token' count' Hlookup. apply (Hcounts token').
    rewrite lookup_insert_ne; [done|]. intros ->. congruence.
Qed.

Lemma sumCounts_bounds_entry (m : gmap string Z) (token : string) (count : Z) :
  (∀ token' count', m !! token' = Some count' → 0 ≤ count') →
  m !! token = Some count →
  count ≤ sumCounts m.
Proof.
  intros Hcounts Hlookup.
  pose proof (sumCounts_delete m token) as Hdelete.
  rewrite Hlookup in Hdelete. simpl in Hdelete.
  assert (0 ≤ sumCounts (delete token m)); [|lia].
  apply sumCounts_nonneg. intros token' count' Hlookup'.
  apply lookup_delete_Some in Hlookup' as [_ Hlookup'].
  by apply (Hcounts token').
Qed.

Lemma andThen_fst (e : Effect) (k : State → Effect) :
  (andThen e k).1 = (k e.1).1.
Proof. destruct e as [st1 evs1]. simpl. by destruct (k st1). Qed.

Lemma andThen_snd (e : Effect) (k : State → Effect) :
  (andThen e k).2 = e.2 ++ (k e.1).2.
Proof. destruct e as [st1 evs1]. simpl. by destruct (k st1). Qed.

Lemma State_eq (st1 st2 : State) :
  (∀ f, totalOf f st1 = totalOf f st2) →
  (∀ f, mapOf f st1 = mapOf f st2) →
  st1 = st2.
Proof.
  intros Htotal Hmap. destruct st1, st2.
  pose proof (Htotal Messages). pose proof (Htotal Mentions).
  pose proof (Htotal MentionDirect). pose proof (Hmap Messages).
  pose proof (Hmap Mentions). pose proof (Hmap MentionDirect).
  simpl in *. congruence.
Qed.

(** What the two counting mutations do to one counter. *)
Lemma update_total (f : Field) (st : State) (p : Payload.t) :
  totalOf f (actions.updateConversationCounts st p).1
  = Number.add (totalOf f st)
      (Number.sub (or0 (payloadField f p))
                  (memberOr0 (getMember (mapOf f st) (Payload.token p)))).
Proof. by destruct f. Qed.

Lemma update_map (f : Field) (st : State) (p : Payload.t) :
  mapOf f (actions.updateConversationCounts st p).1
  = <[Payload.token p := or0 (payloadField f p)]> (mapOf f st).
Proof. by destruct f. Qed.

Lemma remove_total (f : Field) (st : State) (token : string) :
  totalOf f (actions.removeConversation st token).1
  = Number.sub (totalOf f st) (memberOr0 (getMember (mapOf f st) token)).
Proof. by destruct f. Qed.

Lemma remove_map (f : Field) (st : State) (token : string) :
  mapOf f (actions.removeConversation st token).1 = delete token (mapOf f st).
Proof. by destruct f. Qed.

Lemma dispatch_map (f : Field) (st : State) (op : CountOp) :
  mapOf f (dispatch st op).1
  = match op with
    | DoUpdate p => <[opToken op := or0 (payloadField f p)]> (mapOf f st)
    | DoRemove _ => delete (opToken op) (mapOf f st)
    end.
Proof. destruct op; [apply update_map | apply remove_map]. Qed.

Lemma dispatch_emits (st : State) (op : CountOp) :
  (dispatch st op).2 = [emitTotals (dispatch st op).1].
Proof. by destruct op. Qed.

Lemma dispatchAll_cons (st : State) (op : CountOp) (rest : list CountOp) :
  dispatchAll st (op :: rest)
  = andThen (dispatch st op) (λ st1, dispatchAll st1 rest).
Proof. reflexivity. Qed.

(** *** Exact runs *)

Lemma exactStore_initial : exactStore state.
Proof.
  split; [split|split].
  - intros []; simpl; by rewrite sumCounts_empty.
  - by intros [].
  - intros [] token count; simpl; by rewrite lookup_empty.
  - intros []; simpl; by rewrite sumCounts_empty.
Qed.

(** On an exact store, an operation about an ordinary token that reports
    no negative count and leaves the tracked counts within range is computed
    without rounding: the store it leaves is exact again. *)
Lemma exactStore_dispatch (st : State) (op : CountOp) :
  exactStore st →
  ordinaryToken (opToken op) →
  nonNegativeOp op →
  sumsWithinRange (dispatch st op).1 →
  exactStore (dispatch st op).1.
Proof.
  intros ((Hsum & Hdom) & Hcounts & Hrange) Hordinary Hop Hafter.
  assert (∀ f token count,
            mapOf f (dispatch st op).1 !! token = Some count → 0 ≤ count)
    as Hcounts'.
  { intros f token count. rewrite dispatch_map.
    destruct op as [p|removed]; simpl in *.
    - destruct (decide (Payload.token p = token)) as [->|Hne].
      + rewrite lookup_insert_eq. intros [= <-]. apply Hop.
      + rewrite lookup_insert_ne by done. apply Hcounts.
    - intros Hlookup. apply lookup_delete_Some in Hlookup as [_ Hlookup].
      by apply (Hcounts f token). }
  split; [split|split]; [| |exact Hcounts'|exact Hafter].
  - intros f.
    pose proof (Hafter f) as Hhigh.
    pose proof (sumCounts_nonneg _ (Hcounts' f)) as Hlow.
    pose proof (Hrange f) as Hbefore.
    pose proof (sumCounts_nonneg _ (Hcounts f)) as Hbefore0.
    assert (0 ≤ or0 (mapOf f st !! opToken op) ≤ sumCounts (mapOf f st))
      as Hold.
    { destruct (mapOf f st !! opToken op) as [old|] eqn:Hlookup; simpl.
      - split; [by apply (Hcounts f (opToken op))|].
        by apply (sumCounts_bounds_entry _ (opToken op)); [apply Hcounts|].
      - lia. }
    destruct op as [p|removed].
    + change (dispatch st (DoUpdate p))
        with (actions.updateConversationCounts st p) in *.
      change (opToken (DoUpdate p)) with (Payload.token p) in *.
      pose proof (Hop f) as Hnew.
      rewrite update_total, Hsum, getMember_ordinary by done.
      rewrite update_map in Hhigh, Hlow |- *.
      rewrite sumCounts_insert in Hhigh, Hlow |- *.
      rewrite sub_exact by lia. rewrite add_exact by lia. done.
    + change (dispatch st (DoRemove removed))
        with (actions.removeConversation st removed) in *.
      change (opToken (DoRemove removed)) with removed in *.
      rewrite remove_total, Hsum, getMember_ordinary by done.
      rewrite remove_map in Hhigh, Hlow |- *.
      rewrite sumCounts_delete in Hhigh, Hlow |- *.
      rewrite sub_exact by lia. done.
  - intros f. pose proof (Hdom f) as Hf. unfold trackedTokens in *.
    rewrite !dispatch_map.
    destruct op; simpl; rewrite ?dom_insert_L, ?dom_delete_L; congruence.
Qed.

Lemma exactStore_dispatchAll (ops : list CountOp) (st : State) :
  exactStore st → exactRun st ops → exactStore (dispatchAll st ops).1.
Proof.
  revert st. induction ops as [|op rest IH];
    intros st Hst (Hordinary & Hnonneg & Hrange).
  - done.
  - apply Forall_cons in Hordinary as [Hordinary1 Hordinary].
    apply Forall_cons in Hnonneg as [Hnonneg1 Hnonneg].
    destruct Hrange as [Hrange1 Hrange].
    rewrite dispatchAll_cons, andThen_fst.
    apply IH; [by apply exactStore_dispatch | done].
Qed.

(** C1, as stated, fails in two ways.  After one update of the token
    "constructor" the three totals are NaN while the maps store 5/1/0: the
    absent entry reads as the inherited member, not as zero.  And after
    "t1" reports 2^53 unread messages, "t2" reports one and "t1" is removed,
    the total is 0 while "t2" still stores 1: 2^53 + 1 is not a double. *)
Lemma totals_leave_tracked_counts_counterexample :
  (totalUnreadMessages (dispatchAll state [DoUpdate inheritedNamePayload]).1
   = NaN ∧
   sumCounts
     (unreadMessagesMap (dispatchAll state [DoUpdate inheritedNamePayload]).1)
   = 5 ∧
   totalUnreadMessages (dispatchAll state [DoUpdate inheritedNamePayload]).1
   ≠ Finite
       (sumCounts
          (unreadMessagesMap
             (dispatchAll state [DoUpdate inheritedNamePayload]).1))) ∧
  (totalUnreadMessages (dispatchAll state roundingRun).1 = 0 ∧
   unreadMessagesMap (dispatchAll state roundingRun).1 !! "t2" = Some 1 ∧
   sumCounts (unreadMessagesMap (dispatchAll state roundingRun).1) = 1 ∧
   totalUnreadMessages (dispatchAll state roundingRun).1
   ≠ Finite (sumCounts (unreadMessagesMap (dispatchAll state roundingRun).1))).
Proof.
  repeat split; vm_compute; first [reflexivity | discriminate].
Qed.

(** C1, amended: after any sequence of [updateConversationCounts] and
    [removeConversation] operations run from the initial state, each of the
    three totals equals the sum of the corresponding per-token counts, and
    the three maps hold the same tracked tokens, provided that no token is
    the name of a foreign member, that no update reports a negative count,
    and that the tracked counts add up to at most 2^53 after every
    operation. *)
Theorem totals_equal_sum_of_tracked_counts (ops : list CountOp) :
  Forall (λ op, ordinaryToken (opToken op)) ops →
  Forall nonNegativeOp ops →
  sumsStayWithinRange state ops →
  let st := (dispatchAll state ops).1 in
  totalUnreadMessages st = sumCounts (unreadMessagesMap st) ∧
  totalUnreadMentions st = sumCounts (unreadMentionsMap st) ∧
  totalUnreadMentionDirect st = sumCounts (unreadMentionDirectMap st) ∧
  dom (unreadMentionsMap st) = trackedTokens st ∧
  dom (unreadMentionDirectMap st) = trackedTokens st.
Proof.
  intros Hordinary Hnonneg Hrange st.
  destruct (exactStore_dispatchAll ops state exactStore_initial)
    as ((Hsum & Hdom) & _); [done|].
  fold st in Hsum, Hdom.
  split; [exact (Hsum Messages)|].
  split; [exact (Hsum Mentions)|].
  split; [exact (Hsum MentionDirect)|].
  split; [exact (Hdom Mentions) | exact (Hdom MentionDirect)].
Qed.

(** C2, as stated, fails for a token that names an inherited member.  On
    the initial store nothing is stored for "constructor", so the claim has
    the update to 5/1/0 add 5 - 0 to the total of unread messages; the code
    reads the inherited member as the previous count, and the three totals
    and the event payload are NaN. *)
Lemma update_of_inherited_name_counterexample :
  unreadMessagesMap state !! Payload.token inheritedNamePayload = None ∧
  totalUnreadMessages
    (actions.updateConversationCounts state inheritedNamePayload).1
  = NaN ∧
  totalUnreadMessages
    (actions.updateConversationCounts state inheritedNamePayload).1
  ≠ Number.add (totalUnreadMessages state) (Number.sub 5 0) ∧
  (actions.updateConversationCounts state inheritedNamePayload).2
  = [Emitted "talk:unread:updated" (UnreadCountEvent.mk NaN NaN NaN)].
Proof.
  repeat split; vm_compute; first [reflexivity | discriminate].
Qed.

(** C2, amended: for every token that is not the name of a foreign member,
    [updateConversationCounts] adds to each total the difference between
    the new count and the count stored for the token (each zero when
    absent), in double arithmetic, which is exact whenever the difference
    and the new total are at most 2^53 in magnitude; it stores the new
    counts under the token, leaves every other token alone, and emits one
    [talk:unread:updated] event carrying the new totals. *)
Theorem updateConversationCounts_applies_delta (st : State) (p : Payload.t) :
  ordinaryToken (Payload.token p) →
  let st' := (actions.updateConversationCounts st p).1 in
  let emitted := (actions.updateConversationCounts st p).2 in
  let delta f :=
    default 0 (payloadField f p) - default 0 (mapOf f st !! Payload.token p) in
  (∀ f, totalOf f st' =
        Number.add (totalOf f st)
          (Number.sub (default 0 (payloadField f p))
                      (default 0 (mapOf f st !! Payload.token p)))) ∧
  (∀ f total,
     totalOf f st = Finite total →
     Z.abs (delta f) ≤ maxExactInteger →
     Z.abs (total + delta f) ≤ maxExactInteger →
     totalOf f st' = Finite (total + delta f)) ∧
  (∀ f, mapOf f st' !! Payload.token p = Some (default 0 (payloadField f p))) ∧
  (∀ f other, other ≠ Payload.token p → mapOf f st' !! other = mapOf f st !! other) ∧
  emitted =
    [Emitted "talk:unread:updated"
       (UnreadCountEvent.mk (totalUnreadMessages st')
          (totalUnreadMentions st') (totalUnreadMentionDirect st'))].
Proof.
  intros Hordinary st' emitted delta.
  assert (∀ f, totalOf f st' =
               Number.add (totalOf f st)
                 (Number.sub (default 0 (payloadField f p))
                    (default 0 (mapOf f st !! Payload.token p)))) as Htotal.
  { intros f. subst st'.
    by rewrite update_total, getMember_ordinary, !or0_default. }
  split; [exact Htotal|]. split; [|split; [|split]].
  - intros f total Hfinite Hdelta Hnew. subst delta.
    rewrite Htotal, Hfinite, sub_exact by done. by apply add_exact.
  - intros f. subst st'.
    by rewrite update_map, lookup_insert_eq, or0_default.
  - intros f other Hne. subst st'. by rewrite update_map, lookup_insert_ne.
  - done.
Qed.

(** C3, as stated, fails for a token that names an inherited member.  The
    store tracking "t1" with 5/1/0 stores nothing for "constructor", so the
    claim has its removal subtract zero; the code subtracts the inherited
    member, and the three totals and the event payload are NaN. *)
Lemma removal_of_inherited_name_counterexample :
  unreadMessagesMap oneConversationState !! "constructor" = None ∧
  totalUnreadMessages oneConversationState = 5 ∧
  totalUnreadMessages
    (actions.removeConversation oneConversationState "constructor").1
  = NaN ∧
  totalUnreadMessages
    (actions.removeConversation oneConversationState "constructor").1
  ≠ Number.sub (totalUnreadMessages oneConversationState) 0 ∧
  (actions.removeConversation oneConversationState "constructor").2
  = [Emitted "talk:unread:updated" (UnreadCountEvent.mk NaN NaN NaN)].
Proof.
  repeat split; vm_compute; first [reflexivity | discriminate].
Qed.

(** C3, amended: for every token that is not the name of a foreign member,
    [removeConversation] subtracts from each total the count stored for the
    token (zero when absent), in double arithmetic, which is exact whenever
    the new total is at most 2^53 in magnitude; it deletes the token from
    the three maps, leaves every other token alone, and emits one
    [talk:unread:updated] event carrying the resulting totals. *)
Theorem removeConversation_subtracts_and_deletes (st : State) (token : string) :
  ordinaryToken token →
  let st' := (actions.removeConversation st token).1 in
  let emitted := (actions.removeConversation st token).2 in
  (∀ f, totalOf f st' =
        Number.sub (totalOf f st) (default 0 (mapOf f st !! token))) ∧
  (∀ f total,
     totalOf f st = Finite total →
     Z.abs (total - default 0 (mapOf f st !! token)) ≤ maxExactInteger →
     totalOf f st' = Finite (total - default 0 (mapOf f st !! token))) ∧
  (∀ f, mapOf f st' !! token = None) ∧
  (∀ f other, other ≠ token → mapOf f st' !! other = mapOf f st !! other) ∧
  emitted =
    [Emitted "talk:unread:updated"
       (UnreadCountEvent.mk (totalUnreadMessages st')
          (totalUnreadMentions st') (totalUnreadMentionDirect st'))].
Proof.
  intros Hordinary st' emitted.
  assert (∀ f, totalOf f st' =
               Number.sub (totalOf f st) (default 0 (mapOf f st !! token)))
    as Htotal.
  { intros f. subst st'.
    by rewrite remove_total, getMember_ordinary, or0_default. }
  split; [exact Htotal|]. split; [|split; [|split]].
  - intros f total Hfinite Hnew. rewrite Htotal, Hfinite. by apply sub_exact.
  - intros f. subst st'. by rewrite remove_map, lookup_delete_eq.
  - intros f other Hne. subst st'. by rewrite remove_map, lookup_delete_ne.
  - done.
Qed.

(** Spec scenario: updating "t1" to 5/1/0 and then to 3/1/0 leaves three
    unread messages in total, and each update emitted its own event. *)
Example update_twice_scenario :
  let run :=
    dispatchAll state
      [DoUpdate (Payload.mk "t1" (Some 5) (Some 1) (Some 0));
       DoUpdate (Payload.mk "t1" (Some 3) (Some 1) (Some 0))] in
  getters.getTotalUnreadMessages run.1 = 3 ∧
  getters.getTotalUnreadMentions run.1 = 1 ∧
  getters.getTotalUnreadMentionDirect run.1 = 0 ∧
  run.2 =
    [Emitted "talk:unread:updated" (UnreadCountEvent.mk 5 1 0);
     Emitted "talk:unread:updated" (UnreadCountEvent.mk 3 1 0)].
Proof.
  vm_compute. done.
Qed.

(** C4, as stated, fails: committing [RESET_ALL_COUNTERS] on a store that
    tracks a conversation changes the totals from 5/1/0 to 0/0/0 and emits
    nothing, so no event carries the current totals. *)
Lemma reset_emits_nothing_counterexample :
  totalUnreadMessages oneConversationState = 5 ∧
  totalUnreadMessages (commit oneConversationState CommitReset).1 = 0 ∧
  (commit oneConversationState CommitReset).2 = [] ∧
  (commit oneConversationState CommitReset).2
    ≠ [emitTotals (commit oneConversationState CommitReset).1].
Proof.
  repeat split; vm_compute; first [reflexivity | discriminate].
Qed.

(** C4, amended: every [updateConversationCounts] and [removeConversation]
    operation emits [talk:unread:updated] exactly once, carrying the totals
    of the state it leaves; this holds also when the delta is zero, where
    the event carries the unchanged totals. *)
Theorem counting_operations_emit_current_totals (st : State) (op : CountOp) :
  (dispatch st op).2 =
    [Emitted "talk:unread:updated"
       (UnreadCountEvent.mk
          (totalUnreadMessages (dispatch st op).1)
          (totalUnreadMentions (dispatch st op).1)
          (totalUnreadMentionDirect (dispatch st op).1))] ∧
  ((∀ f, totalOf f (dispatch st op).1 = totalOf f st) →
   (dispatch st op).2 =
     [Emitted "talk:unread:updated"
        (UnreadCountEvent.mk (totalUnreadMessages st)
           (totalUnreadMentions st) (totalUnreadMentionDirect st))]).
Proof.
  assert ((dispatch st op).2 = [emitTotals (dispatch st op).1]) as Hemit
    by by destruct op.
  split; [exact Hemit|].
  intros Hsame. rewrite Hemit. unfold emitTotals.
  pose proof (Hsame Messages) as Hmessages.
  pose proof (Hsame Mentions) as Hmentions.
  pose proof (Hsame MentionDirect) as Hdirect.
  unfold totalOf in Hmessages, Hmentions, Hdirect.
  by rewrite Hmessages, Hmentions, Hdirect.
Qed.

(** A zero delta still emits: repeating the update that built
    [oneConversationState] changes nothing and emits the totals again. *)
Example unchanged_counts_still_emit :
  actions.updateConversationCounts oneConversationState
    (Payload.mk "t1" (Some 5) (Some 1) (Some 0))
  = (oneConversationState,
     [Emitted "talk:unread:updated" (UnreadCountEvent.mk 5 1 0)]).
Proof.
  vm_compute. reflexivity.
Qed.

(** C9: [recalculateTotalUnreadCounters] over an empty or a missing
    conversation list leaves the three totals at 0 and the three per-token
    maps empty, whatever the store held before. *)
Theorem recalculate_without_conversations_clears (st : State) :
  let cleared (st' : State) :=
    totalUnreadMessages st' = 0 ∧
    totalUnreadMentions st' = 0 ∧
    totalUnreadMentionDirect st' = 0 ∧
    unreadMessagesMap st' = ∅ ∧
    unreadMentionsMap st' = ∅ ∧
    unreadMentionDirectMap st' = ∅ in
  cleared (actions.recalculateTotalUnreadCounters st (Some [])).1 ∧
  cleared (actions.recalculateTotalUnreadCounters st None).1.
Proof. simpl. done. Qed.

(** C10: the [RESET_ALL_COUNTERS] mutation leaves all-zero totals and empty
    maps and emits no event; hence [recalculateTotalUnreadCounters] over an
    empty or missing conversation list does exactly that reset and emits no
    event either. *)
Theorem reset_emits_no_event (st : State) :
  (∀ f, totalOf f (mutations.RESET_ALL_COUNTERS st).1 = 0) ∧
  (∀ f, mapOf f (mutations.RESET_ALL_COUNTERS st).1 = ∅) ∧
  (mutations.RESET_ALL_COUNTERS st).2 = [] ∧
  actions.recalculateTotalUnreadCounters st (Some [])
    = mutations.RESET_ALL_COUNTERS st ∧
  actions.recalculateTotalUnreadCounters st None
    = mutations.RESET_ALL_COUNTERS st.
Proof. repeat split; by intros []. Qed.

(** The payload dispatched for a listed conversation. *)
Lemma forEachConversation_cons
    (st : State) (c : Conversation.t) (rest : list Conversation.t) :
  actions.forEachConversation st (c :: rest)
  = andThen
      (actions.updateConversationCounts st (conversationPayload c))
      (λ st1, actions.forEachConversation st1 rest).
Proof. reflexivity. Qed.

Lemma conversationPayload_field (f : Field) (c : Conversation.t) :
  or0 (payloadField f (conversationPayload c)) = or0 (conversationField f c).
Proof. by destruct f. Qed.

Lemma forEachConversation_step_map
    (f : Field) (st : State) (c : Conversation.t) :
  mapOf f (actions.updateConversationCounts st (conversationPayload c)).1
  = <[Conversation.token c := or0 (conversationField f c)]> (mapOf f st).
Proof. by destruct f. Qed.

Lemma forEachConversation_lookup_other
    (f : Field) (token : string) (cs : list Conversation.t) (st : State) :
  (∀ c, c ∈ cs → Conversation.token c ≠ token) →
  mapOf f (actions.forEachConversation st cs).1 !! token = mapOf f st !! token.
Proof.
  revert st. induction cs as [|c rest IH]; intros st Hother.
  - done.
  - rewrite forEachConversation_cons, andThen_fst, IH.
    + assert (Conversation.token c ≠ token) as Hne
        by (apply Hother; left).
      by rewrite forEachConversation_step_map, lookup_insert_ne.
    + intros c' Hc'. apply Hother. by right.
Qed.

Lemma forEachConversation_lookup_last
    (f : Field) (before after : list Conversation.t) (c : Conversation.t)
    (st : State) :
  (∀ c', c' ∈ after → Conversation.token c' ≠ Conversation.token c) →
  mapOf f (actions.forEachConversation st (before ++ c :: after)).1
    !! Conversation.token c
  = Some (or0 (conversationField f c)).
Proof.
  intros Hafter. revert st.
  induction before as [|b before IH]; intros st.
  - simpl app.
    rewrite forEachConversation_cons, andThen_fst,
      forEachConversation_lookup_other by done.
    by rewrite forEachConversation_step_map, lookup_insert_eq.
  - simpl app. rewrite forEachConversation_cons, andThen_fst. apply IH.
Qed.

Lemma recalculate_listed (st : State) (cs : list Conversation.t) :
  actions.recalculateTotalUnreadCounters st (Some cs)
  = actions.forEachConversation state cs.
Proof.
  unfold actions.recalculateTotalUnreadCounters, andThen. simpl.
  destruct cs as [|c rest]; [done|].
  by destruct (actions.forEachConversation _ _).
Qed.

(** C8, as stated, fails on the read path for a token that names an
    inherited member: nothing is stored for "constructor", yet the value the
    code takes as its previous count is the inherited member, not zero, and
    both an update and a removal of that token leave the totals NaN. *)
Lemma absent_inherited_name_counterexample :
  unreadMessagesMap state !! "constructor" = None ∧
  memberOr0 (getMember (unreadMessagesMap state) "constructor") = NaN ∧
  memberOr0 (getMember (unreadMessagesMap state) "constructor") ≠ Finite 0 ∧
  totalUnreadMessages
    (actions.updateConversationCounts state inheritedNamePayload).1 = NaN ∧
  unreadMessagesMap oneConversationState !! "constructor" = None ∧
  totalUnreadMessages oneConversationState = 5 ∧
  totalUnreadMessages
    (actions.removeConversation oneConversationState "constructor").1 = NaN.
Proof.
  repeat split; vm_compute; first [reflexivity | discriminate].
Qed.

(** C8, amended: a missing counter is zero on the write path for every
    token, and on the read path for every token that is not the name of a
    foreign member.  Read: such a token with no stored count contributes 0
    as the previous value of an update, and 0 is subtracted when it is
    removed, which leaves the total as it is.  Write: a payload field that
    is missing is stored as 0 (the entry exists and holds 0), and a
    conversation whose field is missing is recorded with 0 by a
    recalculation.  All operations are total functions: none fails. *)
Theorem missing_counts_are_zero :
  (∀ st p f,
     ordinaryToken (Payload.token p) →
     mapOf f st !! Payload.token p = None →
     totalOf f (actions.updateConversationCounts st p).1
     = Number.add (totalOf f st)
         (Number.sub (default 0 (payloadField f p)) 0)) ∧
  (∀ st p f,
     payloadField f p = None →
     mapOf f (actions.updateConversationCounts st p).1 !! Payload.token p
     = Some 0 ∧
     (ordinaryToken (Payload.token p) →
      totalOf f (actions.updateConversationCounts st p).1
      = Number.add (totalOf f st)
          (Number.sub 0 (default 0 (mapOf f st !! Payload.token p))))) ∧
  (∀ st token f,
     ordinaryToken token →
     mapOf f st !! token = None →
     totalOf f (actions.removeConversation st token).1
     = Number.sub (totalOf f st) 0 ∧
     (Representable (totalOf f st) →
      totalOf f (actions.removeConversation st token).1 = totalOf f st)) ∧
  (∀ st before c after f,
     conversationField f c = None →
     (∀ c', c' ∈ after → Conversation.token c' ≠ Conversation.token c) →
     mapOf f
       (actions.recalculateTotalUnreadCounters st
          (Some (before ++ c :: after))).1
       !! Conversation.token c
     = Some 0).
Proof.
  split; [|split; [|split]].
  - intros st p f Hordinary Hnone.
    by rewrite update_total, getMember_ordinary, Hnone, or0_default.
  - intros st p f Hnone. split.
    + by rewrite update_map, lookup_insert_eq, Hnone.
    + intros Hordinary.
      by rewrite update_total, getMember_ordinary, Hnone, or0_default.
  - intros st token f Hordinary Hnone.
    assert (totalOf f (actions.removeConversation st token).1
            = Number.sub (totalOf f st) 0) as Htotal
      by by rewrite remove_total, getMember_ordinary, Hnone.
    split; [exact Htotal|].
    intros Hdouble. rewrite Htotal. by apply sub_zero.
  - intros st before c after f Hnone Hafter.
    rewrite recalculate_listed, forEachConversation_lookup_last by done.
    by rewrite Hnone.
Qed.
(** ** Properties of the guest-name store *)

Section GuestNames.
Context `{!L10n}.
Implicit Types (names : gmap (string * string) string) (actor : Actor).

(** The name an actually stored entry resolves to. *)
Lemma getGuestName_insert names (token actorId name : string) :
  guestNameStore.getGuestName (<[(token, actorId) := name]> names) token actorId
  = if bool_decide (name = "") then defaultGuestName else name.
Proof.
  unfold guestNameStore.getGuestName. by rewrite lookup_insert_eq.
Qed.

Lemma getGuestName_insert_ne names (key : string * string)
    (token actorId name : string) :
  key ≠ (token, actorId) →
  guestNameStore.getGuestName (<[key := name]> names) token actorId
  = guestNameStore.getGuestName names token actorId.
Proof.
  intros Hne. unfold guestNameStore.getGuestName.
  by rewrite lookup_insert_ne.
Qed.

(** A forced [addGuestName] makes the actor resolve to the incoming name,
    or to the localized default when that name is empty. *)
Lemma getGuestName_addGuestName_forced names actor :
  guestNameStore.getGuestName
    (guestNameStore.addGuestName names actor false)
    (token actor) (actorId actor)
  = if bool_decide (actorDisplayName actor = "") then defaultGuestName
    else actorDisplayName actor.
Proof.
  unfold guestNameStore.addGuestName. rewrite getGuestName_insert.
  repeat case_bool_decide; congruence.
Qed.

(** The name [getGuestName] returns is never empty unless the localized
    default itself is. *)
Lemma getGuestName_empty_is_default names (token actorId : string) :
  guestNameStore.getGuestName names token actorId = "" →
  defaultGuestName = "".
Proof.
  unfold guestNameStore.getGuestName.
  destruct (names !! (token, actorId)) as [name|]; [|done].
  case_bool_decide; congruence.
Qed.

End GuestNames.

(** C7: [getGuestName] returns the localized default when no entry exists
    for (token, actorId) or the stored value is empty;
    [getGuestNameWithGuestSuffix] returns the localized default without the
    "(guest)" marker when the stored name is that default, and the name
    followed by the marker for every other name. *)
Theorem guest_name_default_and_suffix `{!L10n}
    (names : gmap (string * string) string) (token actorId : string) :
  (names !! (token, actorId) = None →
   guestNameStore.getGuestName names token actorId = defaultGuestName) ∧
  (names !! (token, actorId) = Some "" →
   guestNameStore.getGuestName names token actorId = defaultGuestName) ∧
  (guestNameStore.getGuestName names token actorId = defaultGuestName →
   guestNameStore.getGuestNameWithGuestSuffix names token actorId
   = defaultGuestName) ∧
  (guestNameStore.getGuestName names token actorId ≠ defaultGuestName →
   guestNameStore.getGuestNameWithGuestSuffix names token actorId
   = guestNameStore.getGuestName names token actorId +:+ " (guest)") ∧
  (names !! (token, actorId) = Some defaultGuestName →
   guestNameStore.getGuestNameWithGuestSuffix names token actorId
   = defaultGuestName) ∧
  (∀ name,
     names !! (token, actorId) = Some name →
     name ≠ "" → name ≠ defaultGuestName →
     guestNameStore.getGuestNameWithGuestSuffix names token actorId
     = name +:+ " (guest)").
Proof.
  assert (guestNameStore.getGuestName names token actorId = defaultGuestName →
          guestNameStore.getGuestNameWithGuestSuffix names token actorId
          = defaultGuestName) as Hbare.
  { intros Hdefault. unfold guestNameStore.getGuestNameWithGuestSuffix.
    by rewrite Hdefault, bool_decide_eq_true_2. }
  assert (guestNameStore.getGuestName names token actorId ≠ defaultGuestName →
          guestNameStore.getGuestNameWithGuestSuffix names token actorId
          = guestNameStore.getGuestName names token actorId +:+ " (guest)")
    as Hmarked.
  { intros Hother. unfold guestNameStore.getGuestNameWithGuestSuffix.
    by rewrite bool_decide_eq_false_2. }
  repeat split; [| | exact Hbare | exact Hmarked | |].
  - unfold guestNameStore.getGuestName. by intros ->.
  - unfold guestNameStore.getGuestName. by intros ->.
  - intros Hstored. apply Hbare.
    unfold guestNameStore.getGuestName. rewrite Hstored.
    by case_bool_decide.
  - intros name Hstored Hnonempty Hother.
    assert (guestNameStore.getGuestName names token actorId = name) as Hname.
    { unfold guestNameStore.getGuestName.
      by rewrite Hstored, bool_decide_eq_false_2. }
    rewrite Hmarked; by rewrite Hname.
Qed.

(** C6: [addGuestName] with [noUpdate = true] leaves an existing
    non-default name as it is; with [noUpdate = false] it always overwrites
    the stored name with the incoming one, or with the localized default when
    the incoming name is empty.  Either way no other (token, actorId) is
    touched. *)
Theorem addGuestName_respects_noUpdate `{!L10n}
    (names : gmap (string * string) string) (actor : Actor) :
  (∀ name,
     names !! (token actor, actorId actor) = Some name →
     name ≠ "" → name ≠ defaultGuestName →
     guestNameStore.addGuestName names actor true = names ∧
     guestNameStore.getGuestName
       (guestNameStore.addGuestName names actor true)
       (token actor) (actorId actor) = name) ∧
  (actorDisplayName actor ≠ "" →
   guestNameStore.addGuestName names actor false
     !! (token actor, actorId actor) = Some (actorDisplayName actor) ∧
   guestNameStore.getGuestName
     (guestNameStore.addGuestName names actor false)
     (token actor) (actorId actor) = actorDisplayName actor) ∧
  (actorDisplayName actor = "" →
   guestNameStore.addGuestName names actor false
     !! (token actor, actorId actor) = Some defaultGuestName ∧
   guestNameStore.getGuestName
     (guestNameStore.addGuestName names actor false)
     (token actor) (actorId actor) = defaultGuestName) ∧
  (∀ noUpdate key,
     key ≠ (token actor, actorId actor) →
     guestNameStore.addGuestName names actor noUpdate !! key = names !! key).
Proof.
  split; [|split; [|split]].
  - intros name Hstored Hnonempty Hother.
    assert (guestNameStore.addGuestName names actor true = names) as Hsame.
    { unfold guestNameStore.addGuestName. rewrite Hstored. simpl.
      by rewrite bool_decide_eq_false_2. }
    split; [done|]. rewrite Hsame.
    unfold guestNameStore.getGuestName. rewrite Hstored.
    by rewrite bool_decide_eq_false_2.
  - intros Hnonempty. split.
    + unfold guestNameStore.addGuestName.
      by rewrite lookup_insert_eq, bool_decide_eq_false_2.
    + by rewrite getGuestName_addGuestName_forced, bool_decide_eq_false_2.
  - intros Hempty. split.
    + unfold guestNameStore.addGuestName.
      by rewrite lookup_insert_eq, bool_decide_eq_true_2.
    + by rewrite getGuestName_addGuestName_forced, bool_decide_eq_true_2.
  - intros noUpdate key Hne. unfold guestNameStore.addGuestName.
    destruct noUpdate; [destruct (guestNameStore.isUnset _)|];
      by rewrite ?lookup_insert_ne.
Qed.

(** C5: when the remote call rejects, [submitGuestUsername] puts the local
    guest name and the current user's display name back to the name held
    before, logs the error, leaves the persisted nickname alone and still
    fulfils; when the call resolves, the local guest name, the display name
    and the persisted nickname are updated, an empty name persisting the
    localized default.  The remote service is called once with
    (token, name) in both cases. *)
Theorem submitGuestUsername_commits_or_rolls_back `{!L10n}
    (setGuestUserName : string → string → RemoteResult)
    (s : Session) (token name : string) :
  let prior :=
    guestNameStore.getGuestName (guestNames s) token (currentActorId s) in
  let result := guestNameStore.submitGuestUsername setGuestUserName s token name in
  let submitted := if bool_decide (name = "") then defaultGuestName else name in
  (∀ error,
     setGuestUserName token name = RejectedWith error →
     guestNameStore.getGuestName (guestNames result.1) token
       (currentActorId result.1) = prior ∧
     displayName result.1 = prior ∧
     (displayName s = prior → displayName result.1 = displayName s) ∧
     consoleErrors result.1 = consoleErrors s ++ [error] ∧
     persistedNickname result.1 = persistedNickname s ∧
     result.2 = Fulfilled) ∧
  (setGuestUserName token name = Resolved →
     guestNameStore.getGuestName (guestNames result.1) token
       (currentActorId result.1) = submitted ∧
     displayName result.1 = name ∧
     persistedNickname result.1 = Some submitted ∧
     consoleErrors result.1 = consoleErrors s ∧
     result.2 = Fulfilled) ∧
  remoteCalls result.1 = remoteCalls s ++ [(token, name)].
Proof.
  intros prior result submitted. subst result.
  unfold guestNameStore.submitGuestUsername.
  split; [|split].
  - intros error ->. simpl. repeat split; [|by intros ->].
    pose proof (getGuestName_addGuestName_forced
      (guestNameStore.addGuestName (guestNames s)
         (mkActor token (currentActorId s) name) false)
      (mkActor token (currentActorId s) prior)) as Hback.
    simpl in Hback. fold prior. rewrite Hback.
    case_bool_decide as Hempty; [|done].
    symmetry. rewrite Hempty. subst prior.
    by apply getGuestName_empty_is_default in Hempty.
  - intros ->. simpl. repeat split.
    apply (getGuestName_addGuestName_forced (guestNames s)
             (mkActor token (currentActorId s) name)).
  - by destruct (setGuestUserName token name).
Qed.

(** ** The test suite of the guest-name store, replayed on the model *)

Module guestNameStore_tests.
Import fixtures.

Example sets_guest_name_if_empty :
  let names := addGuestName freshNames actor1 true in
  getGuestName names "token-1" "actor-id1" = "actor-display-name-one" ∧
  getGuestName names "token-2" "actor-id1" = "Guest" ∧
  getGuestName names "token-1" "actor-id2" = "Guest".
Proof. vm_compute. done. Qed.

Example does_not_overwrite_guest_name_if_not_empty :
  let names :=
    addGuestName (addGuestName freshNames actor1 true) actor1Altered true in
  getGuestName names "token-1" "actor-id1" = "actor-display-name-one".
Proof. vm_compute. done. Qed.

Example forces_overwriting_guest_name :
  let names :=
    addGuestName (addGuestName freshNames actor1 false) actor1Altered false in
  getGuestName names "token-1" "actor-id1" = "actor-display-name-another".
Proof. vm_compute. done. Qed.

Example clear_guest_name :
  let names :=
    addGuestName (addGuestName freshNames actor1 true) actor1Cleared false in
  getGuestName names "token-1" "actor-id1" = "Guest".
Proof. vm_compute. done. Qed.

Example gets_suffix_with_guest_display_name :
  getGuestNameWithGuestSuffix (addGuestName freshNames actor1 false)
    "token-1" "actor-id1"
  = "actor-display-name-one (guest)".
Proof. vm_compute. done. Qed.

Example does_not_get_suffix_for_default_guest_name :
  getGuestNameWithGuestSuffix (addGuestName freshNames actor1Default false)
    "token-1" "actor-id1"
  = "Guest".
Proof. vm_compute. done. Qed.

Example stores_the_display_name_when_guest_submits_it :
  let result :=
    submitGuestUsername mockResolved (sessionOf freshNames) "token-1" "actor 1" in
  remoteCalls result.1 = [("token-1", "actor 1")] ∧
  persistedNickname result.1 = Some "actor 1" ∧
  getGuestName (guestNames result.1) "token-1" "actor-id1" = "actor 1" ∧
  displayName result.1 = "actor 1".
Proof. vm_compute. done. Qed.

Example persists_default_when_user_submits_empty_name :
  let result :=
    submitGuestUsername mockResolved (sessionOf freshNames) "token-1" "" in
  remoteCalls result.1 = [("token-1", "")] ∧
  persistedNickname result.1 = Some "Guest".
Proof. vm_compute. done. Qed.

Example resets_to_previous_display_name_on_error :
  let result :=
    submitGuestUsername mockRejected
      (sessionOf (addGuestName freshNames actor1Old false))
      "token-1" "actor 1" in
  remoteCalls result.1 = [("token-1", "actor 1")] ∧
  displayName result.1 = "old actor 1" ∧
  getGuestName (guestNames result.1) "token-1" "actor-id1" = "old actor 1" ∧
  consoleErrors result.1 = [mkOCSError 400] ∧
  result.2 = Fulfilled.
Proof. vm_compute. done. Qed.

End guestNameStore_tests.


(** ** The statements at concrete inputs *)

Lemma guest_name_default_and_suffix_witness :
  fixtures.freshNames !! ("token-2", "actor-id1") = None ∧
  fixtures.getGuestName fixtures.freshNames "token-2" "actor-id1" = "Guest" ∧
  fixtures.getGuestNameWithGuestSuffix fixtures.freshNames
    "token-2" "actor-id1" = "Guest" ∧
  fixtures.getGuestNameWithGuestSuffix
    (<[("token-1", "actor-id1") := "actor-display-name-one"]> fixtures.freshNames)
    "token-1" "actor-id1"
  = "actor-display-name-one (guest)" ∧
  fixtures.getGuestNameWithGuestSuffix
    (<[("token-1", "actor-id1") := "Guest"]> fixtures.freshNames)
    "token-1" "actor-id1"
  = "Guest".
Proof.
  split; [reflexivity|].
  destruct (@guest_name_default_and_suffix l10n_untranslated
              fixtures.freshNames "token-2" "actor-id1")
    as (Habsent & _ & Hbare & _).
  split; [exact (Habsent eq_refl)|].
  split; [exact (Hbare (Habsent eq_refl))|].
  split.
  - destruct (@guest_name_default_and_suffix l10n_untranslated
                (<[("token-1", "actor-id1") := "actor-display-name-one"]>
                   fixtures.freshNames) "token-1" "actor-id1")
      as (_ & _ & _ & _ & _ & Hnamed).
    apply (Hnamed "actor-display-name-one");
      [vm_compute; reflexivity | discriminate | discriminate].
  - destruct (@guest_name_default_and_suffix l10n_untranslated
                (<[("token-1", "actor-id1") := "Guest"]> fixtures.freshNames)
                "token-1" "actor-id1")
      as (_ & _ & _ & _ & Hdefault & _).
    apply Hdefault. vm_compute. reflexivity.
Defined.

Lemma addGuestName_respects_noUpdate_witness :
  (fixtures.addGuestName fixtures.freshNames fixtures.actor1 false
     !! ("token-1", "actor-id1") = Some "actor-display-name-one" ∧
   fixtures.addGuestName
     (fixtures.addGuestName fixtures.freshNames fixtures.actor1 false)
     fixtures.actor1Altered true
   = fixtures.addGuestName fixtures.freshNames fixtures.actor1 false) ∧
  fixtures.getGuestName
    (fixtures.addGuestName
       (fixtures.addGuestName fixtures.freshNames fixtures.actor1 false)
       fixtures.actor1Altered false)
    "token-1" "actor-id1" = "actor-display-name-another" ∧
  fixtures.getGuestName
    (fixtures.addGuestName
       (fixtures.addGuestName fixtures.freshNames fixtures.actor1 false)
       fixtures.actor1Cleared false)
    "token-1" "actor-id1" = "Guest" ∧
  fixtures.addGuestName fixtures.freshNames fixtures.actor1 false
    !! ("token-2", "actor-id1") = None.
Proof.
  pose (names := fixtures.addGuestName fixtures.freshNames fixtures.actor1 false).
  destruct (@addGuestName_respects_noUpdate l10n_untranslated
              fixtures.freshNames fixtures.actor1)
    as (_ & Hfirst & _ & Hfresh).
  destruct (@addGuestName_respects_noUpdate l10n_untranslated
              names fixtures.actor1Altered)
    as (Hkeep & Hforce & _ & _).
  destruct (@addGuestName_respects_noUpdate l10n_untranslated
              names fixtures.actor1Cleared)
    as (_ & _ & Hclear & _).
  split; [split|split; [|split]].
  - apply Hfirst. discriminate.
  - apply (Hkeep "actor-display-name-one");
      [vm_compute; reflexivity | discriminate | discriminate].
  - apply Hforce. discriminate.
  - apply Hclear. reflexivity.
  - etrans; [apply (Hfresh false ("token-2", "actor-id1")); discriminate|].
    reflexivity.
Defined.

Lemma submitGuestUsername_commits_or_rolls_back_witness :
  (fixtures.mockRejected "token-1" "actor 1" = RejectedWith (mkOCSError 400) ∧
   displayName
     (fixtures.submitGuestUsername fixtures.mockRejected
        (fixtures.sessionOf
           (fixtures.addGuestName fixtures.freshNames fixtures.actor1Old false))
        "token-1" "actor 1").1
   = "old actor 1" ∧
   (fixtures.submitGuestUsername fixtures.mockRejected
      (fixtures.sessionOf
         (fixtures.addGuestName fixtures.freshNames fixtures.actor1Old false))
      "token-1" "actor 1").2
   = Fulfilled) ∧
  (fixtures.mockResolved "token-1" "" = Resolved ∧
   persistedNickname
     (fixtures.submitGuestUsername fixtures.mockResolved
        (fixtures.sessionOf fixtures.freshNames) "token-1" "").1
   = Some "Guest").
Proof.
  split.
  - split; [reflexivity|].
    pose proof (@submitGuestUsername_commits_or_rolls_back l10n_untranslated
                  fixtures.mockRejected
                  (fixtures.sessionOf
                     (fixtures.addGuestName fixtures.freshNames
                        fixtures.actor1Old false))
                  "token-1" "actor 1") as Hsubmit.
    cbv zeta in Hsubmit. destruct Hsubmit as (Hrejected & _ & _).
    destruct (Hrejected (mkOCSError 400) eq_refl)
      as (_ & Hdisplay & _ & _ & _ & Hfulfilled).
    split; [|exact Hfulfilled].
    etrans; [exact Hdisplay|]. vm_compute. reflexivity.
  - split; [reflexivity|].
    pose proof (@submitGuestUsername_commits_or_rolls_back l10n_untranslated
                  fixtures.mockResolved
                  (fixtures.sessionOf fixtures.freshNames) "token-1" "")
      as Hsubmit.
    cbv zeta in Hsubmit. destruct Hsubmit as (_ & Hresolved & _).
    destruct (Hresolved eq_refl) as (_ & _ & Hnickname & _).
    exact Hnickname.
Defined.

Lemma counting_operations_emit_current_totals_witness :
  (∀ f,
     totalOf f
       (dispatch oneConversationState
          (DoUpdate (Payload.mk "t1" (Some 5) (Some 1) (Some 0)))).1
     = totalOf f oneConversationState) ∧
  (dispatch oneConversationState
     (DoUpdate (Payload.mk "t1" (Some 5) (Some 1) (Some 0)))).2
  = [Emitted "talk:unread:updated" (UnreadCountEvent.mk 5 1 0)].
Proof.
  assert (∀ f,
     totalOf f
       (dispatch oneConversationState
          (DoUpdate (Payload.mk "t1" (Some 5) (Some 1) (Some 0)))).1
     = totalOf f oneConversationState) as Hsame
    by (intros []; vm_compute; reflexivity).
  split; [exact Hsame|].
  destruct (counting_operations_emit_current_totals oneConversationState
              (DoUpdate (Payload.mk "t1" (Some 5) (Some 1) (Some 0))))
    as [_ Hzero].
  etrans; [exact (Hzero Hsame)|]. vm_compute. reflexivity.
Defined.

Ltac concrete_ordinary :=
  unfold ordinaryToken; apply (bool_decide_unpack _); vm_compute; reflexivity.

Ltac concrete_bound := vm_compute; discriminate.

Ltac concrete_exactRun :=
  split; [|split];
  [ repeat (apply Forall_cons_2; [concrete_ordinary|]); apply Forall_nil_2
  | repeat (apply Forall_cons_2;
            [first [exact I | intros []; concrete_bound]|]);
    apply Forall_nil_2
  | repeat split; intros []; concrete_bound ].

Lemma totals_equal_sum_of_tracked_counts_witness :
  exactRun state
    [DoUpdate (conversationPayload conversationT1);
     DoUpdate (conversationPayload conversationT2); DoRemove "t1"] ∧
  totalUnreadMessages
    (dispatchAll state
       [DoUpdate (conversationPayload conversationT1);
        DoUpdate (conversationPayload conversationT2); DoRemove "t1"]).1
  = Finite
      (sumCounts
         (unreadMessagesMap
            (dispatchAll state
               [DoUpdate (conversationPayload conversationT1);
                DoUpdate (conversationPayload conversationT2);
                DoRemove "t1"]).1)).
Proof.
  assert (exactRun state
            [DoUpdate (conversationPayload conversationT1);
             DoUpdate (conversationPayload conversationT2); DoRemove "t1"])
    as Hrun by concrete_exactRun.
  split; [exact Hrun|].
  destruct Hrun as (Hordinary & Hnonneg & Hrange).
  pose proof (totals_equal_sum_of_tracked_counts _ Hordinary Hnonneg Hrange)
    as Hsums.
  cbv zeta in Hsums. destruct Hsums as (Hmessages & _). exact Hmessages.
Defined.

Lemma updateConversationCounts_applies_delta_witness :
  ordinaryToken "t2" ∧
  totalOf Messages oneConversationState = Finite 5 ∧
  totalOf Messages
    (actions.updateConversationCounts oneConversationState
       (Payload.mk "t2" (Some 2) None None)).1
  = Finite (5 + (2 - 0)) ∧
  mapOf Messages
    (actions.updateConversationCounts oneConversationState
       (Payload.mk "t2" (Some 2) None None)).1 !! "t1"
  = Some 5.
Proof.
  assert (ordinaryToken "t2") as Hordinary by concrete_ordinary.
  split; [exact Hordinary|].
  split; [vm_compute; reflexivity|].
  pose proof (updateConversationCounts_applies_delta oneConversationState
                (Payload.mk "t2" (Some 2) None None) Hordinary) as Hupdate.
  cbv zeta in Hupdate. destruct Hupdate as (_ & Hexact & _ & Hother & _).
  split.
  - apply (Hexact Messages 5); [vm_compute; reflexivity | | ]; concrete_bound.
  - etrans; [apply (Hother Messages "t1"); discriminate|].
    vm_compute. reflexivity.
Defined.

Lemma removeConversation_subtracts_and_deletes_witness :
  ordinaryToken "t1" ∧
  totalOf Messages oneConversationState = Finite 5 ∧
  totalOf Messages (actions.removeConversation oneConversationState "t1").1
  = Finite (5 - 5) ∧
  mapOf Messages (actions.removeConversation oneConversationState "t1").1 !! "t1"
  = None.
Proof.
  assert (ordinaryToken "t1") as Hordinary by concrete_ordinary.
  split; [exact Hordinary|].
  split; [vm_compute; reflexivity|].
  pose proof (removeConversation_subtracts_and_deletes
                oneConversationState "t1" Hordinary) as Hremove.
  cbv zeta in Hremove. destruct Hremove as (_ & Hexact & Hgone & _).
  split.
  - apply (Hexact Messages 5); [vm_compute; reflexivity | concrete_bound].
  - apply Hgone.
Defined.

Lemma missing_counts_are_zero_witness :
  (ordinaryToken "t1" ∧ mapOf Messages state !! "t1" = None ∧
   totalOf Messages
     (actions.updateConversationCounts state
        (Payload.mk "t1" (Some 5) (Some 1) (Some 0))).1
   = Number.add 0 (Number.sub 5 0)) ∧
  (payloadField Mentions (Payload.mk "t1" (Some 2) None None) = None ∧
   mapOf Mentions
     (actions.updateConversationCounts oneConversationState
        (Payload.mk "t1" (Some 2) None None)).1 !! "t1" = Some 0 ∧
   totalOf Mentions
     (actions.updateConversationCounts oneConversationState
        (Payload.mk "t1" (Some 2) None None)).1 = Finite 0) ∧
  (ordinaryToken "t2" ∧ mapOf Messages oneConversationState !! "t2" = None ∧
   Representable (totalOf Messages oneConversationState) ∧
   totalOf Messages (actions.removeConversation oneConversationState "t2").1
   = Finite 5) ∧
  (conversationField MentionDirect
     (Conversation.mk "t3" (Some 4) (Some 1) None) = None ∧
   mapOf MentionDirect
     (actions.recalculateTotalUnreadCounters oneConversationState
        (Some ([Conversation.mk "t2" None None (Some 7)]
               ++ Conversation.mk "t3" (Some 4) (Some 1) None :: []))).1
     !! "t3" = Some 0).
Proof.
  assert (ordinaryToken "t1") as Hordinary1 by concrete_ordinary.
  assert (ordinaryToken "t2") as Hordinary2 by concrete_ordinary.
  destruct missing_counts_are_zero as (Hread & Hwrite & Hremove & Hrecalc).
  split; [|split; [|split]].
  - split; [exact Hordinary1|]. split; [reflexivity|].
    apply (Hread state (Payload.mk "t1" (Some 5) (Some 1) (Some 0)) Messages);
      [exact Hordinary1 | reflexivity].
  - split; [reflexivity|].
    destruct (Hwrite oneConversationState
                (Payload.mk "t1" (Some 2) None None) Mentions eq_refl)
      as [Hstored Htotal].
    split; [exact Hstored|].
    etrans; [exact (Htotal Hordinary1)|]. vm_compute. reflexivity.
  - split; [exact Hordinary2|]. split; [vm_compute; reflexivity|].
    assert (Representable (totalOf Messages oneConversationState)) as Hdouble
      by (vm_compute; reflexivity).
    split; [exact Hdouble|].
    destruct (Hremove oneConversationState "t2" Messages Hordinary2)
      as [_ Hsame]; [vm_compute; reflexivity|].
    etrans; [exact (Hsame Hdouble)|]. vm_compute. reflexivity.
  - split; [reflexivity|].
    apply (Hrecalc oneConversationState
             [Conversation.mk "t2" None None (Some 7)]
             (Conversation.mk "t3" (Some 4) (Some 1) None) [] MentionDirect).
    + reflexivity.
    + intros c' Hin. by apply elem_of_nil in Hin.
Defined.


(** ** Further properties of the unread-counter store *)

Lemma dispatchAll_two (st : State) (op1 op2 : CountOp) :
  (dispatchAll st [op1; op2]).1 = (dispatch (dispatch st op1).1 op2).1.
Proof.
  do 2 rewrite dispatchAll_cons, andThen_fst. done.
Qed.

Lemma dispatchAll_one (st : State) (op : CountOp) :
  (dispatchAll st [op]).1 = (dispatch st op).1.
Proof. by rewrite dispatchAll_cons, andThen_fst. Qed.

(** Two exact stores with the same maps are the same store. *)
Lemma exactStore_eq (st1 st2 : State) :
  exactStore st1 → exactStore st2 →
  (∀ f, mapOf f st1 = mapOf f st2) → st1 = st2.
Proof.
  intros ((Hsum1 & _) & _) ((Hsum2 & _) & _) Hmaps.
  apply State_eq; [|done].
  intros f. by rewrite Hsum1, Hsum2, Hmaps.
Qed.

(** *** Reachable states *)

Lemma wellFormed_initial : wellFormed state.
Proof.
  split; [|split].
  - by intros [].
  - by intros [].
  - intros token _ Htracked. unfold trackedTokens in Htracked. simpl in Htracked.
    by rewrite dom_empty_L in Htracked.
Qed.

Lemma wellFormed_update (st : State) (p : Payload.t) :
  wellFormed st → wellFormed (actions.updateConversationCounts st p).1.
Proof.
  intros (Hdouble & Hdom & Hforeign). split; [|split].
  - intros f. rewrite update_total. apply add_representable.
  - intros f. pose proof (Hdom f) as Hf. unfold trackedTokens in *.
    rewrite update_map, (update_map Messages), !dom_insert_L. congruence.
  - intros token Hmember Htracked f.
    unfold trackedTokens in Htracked.
    rewrite (update_map Messages), dom_insert_L in Htracked.
    rewrite update_total.
    destruct (decide (token ∈ trackedTokens st)) as [Hbefore|Hfresh].
    + by rewrite (Hforeign token Hmember Hbefore f).
    + assert (token = Payload.token p) as ->.
      { apply elem_of_union in Htracked as [Hin|Hin]; [|done].
        by apply elem_of_singleton in Hin. }
      rewrite getMember_foreign.
      * by rewrite sub_NaN_r, add_NaN_r.
      * unfold ordinaryToken. by intros Hnot.
      * apply not_elem_of_dom. by rewrite Hdom.
Qed.

Lemma wellFormed_remove (st : State) (token : string) :
  wellFormed st → wellFormed (actions.removeConversation st token).1.
Proof.
  intros (Hdouble & Hdom & Hforeign). split; [|split].
  - intros f. rewrite remove_total. apply sub_representable.
  - intros f. pose proof (Hdom f) as Hf. unfold trackedTokens in *.
    rewrite remove_map, (remove_map Messages), !dom_delete_L. congruence.
  - intros token' Hmember Htracked f.
    unfold trackedTokens in Htracked.
    rewrite (remove_map Messages), dom_delete_L in Htracked.
    apply elem_of_difference in Htracked as [Hbefore _].
    by rewrite remove_total, (Hforeign token' Hmember Hbefore f).
Qed.

Lemma wellFormed_reachable (st : State) : Reachable st → wellFormed st.
Proof.
  induction 1 as [|st m Hreach IH].
  - apply wellFormed_initial.
  - destruct m as [p|token|].
    + by apply wellFormed_update.
    + by apply wellFormed_remove.
    + apply wellFormed_initial.
Qed.

(** X1: two counting operations about different conversations commute: in
    either order they leave the same totals and the same per-token maps,
    provided the store is exact and stays exact in both orders. *)
Theorem operations_on_distinct_tokens_commute
    (st : State) (op1 op2 : CountOp) :
  exactStore st →
  exactRun st [op1; op2] →
  exactRun st [op2; op1] →
  opToken op1 ≠ opToken op2 →
  (dispatch (dispatch st op1).1 op2).1 = (dispatch (dispatch st op2).1 op1).1.
Proof.
  intros Hst Hrun12 Hrun21 Hne.
  rewrite <- !dispatchAll_two.
  apply exactStore_eq; [by apply exactStore_dispatchAll ..|].
  intros f. rewrite !dispatchAll_two, !dispatch_map.
  destruct op1, op2; simpl in *.
  - by apply insert_insert_ne.
  - by rewrite delete_insert_ne.
  - by rewrite delete_insert_ne.
  - apply delete_delete.
Qed.

(** X2: the last update of a conversation wins: updating a token twice
    leaves the store exactly as the second update alone would, provided the
    store is exact and stays exact on both runs.  In particular repeating
    an update changes nothing. *)
Theorem later_update_overwrites_earlier (st : State) (p q : Payload.t) :
  exactStore st →
  exactRun st [DoUpdate p; DoUpdate q] →
  exactRun st [DoUpdate q] →
  Payload.token p = Payload.token q →
  (actions.updateConversationCounts
     (actions.updateConversationCounts st p).1 q).1
  = (actions.updateConversationCounts st q).1.
Proof.
  intros Hst Hboth Hlast Htoken.
  change ((dispatch (dispatch st (DoUpdate p)).1 (DoUpdate q)).1
          = (dispatch st (DoUpdate q)).1).
  rewrite <- dispatchAll_two, <- dispatchAll_one.
  apply exactStore_eq; [by apply exactStore_dispatchAll ..|].
  intros f. rewrite dispatchAll_two, dispatchAll_one, !dispatch_map. simpl.
  rewrite Htoken. apply insert_insert_eq.
Qed.

(** X3: on a reachable state, removing a conversation the store does not
    track, whose token is not the name of a foreign member, leaves the state
    as it is, and still emits one event, carrying the unchanged totals. *)
Theorem removing_untracked_token_changes_nothing (st : State) (token : string) :
  Reachable st →
  ordinaryToken token →
  (∀ f, mapOf f st !! token = None) →
  actions.removeConversation st token
  = (st, [Emitted "talk:unread:updated"
            (UnreadCountEvent.mk (totalUnreadMessages st)
               (totalUnreadMentions st) (totalUnreadMentionDirect st))]).
Proof.
  intros Hreach Hordinary Hnone.
  destruct (wellFormed_reachable st Hreach) as (Hdouble & _ & _).
  assert ((actions.removeConversation st token).1 = st) as Hsame.
  { apply State_eq; intros f.
    - rewrite remove_total, getMember_ordinary, Hnone by done.
      by apply sub_zero.
    - rewrite remove_map. by apply delete_id. }
  assert ((actions.removeConversation st token).2
          = [emitTotals (actions.removeConversation st token).1]) as Hemit
    by done.
  rewrite Hsame in Hemit.
  rewrite (surjective_pairing (actions.removeConversation st token)).
  by rewrite Hsame, Hemit.
Qed.

(** X4: on a reachable state, removing a conversation twice is the same as
    removing it once: the second removal finds nothing to subtract. *)
Theorem removeConversation_idempotent (st : State) (token : string) :
  Reachable st →
  (actions.removeConversation (actions.removeConversation st token).1 token).1
  = (actions.removeConversation st token).1.
Proof.
  intros Hreach.
  destruct (wellFormed_reachable st Hreach) as (Hdouble & Hdom & Hforeign).
  apply State_eq; intros f.
  - rewrite (remove_total f (actions.removeConversation st token).1).
    rewrite remove_map.
    destruct (decide (token ∈ foreignMembers)) as [Hmember|Hordinary].
    + rewrite (getMember_foreign (delete token (mapOf f st)));
        [|unfold ordinaryToken; by intros Hnot|apply lookup_delete_eq].
      rewrite sub_NaN_r, remove_total.
      destruct (mapOf f st !! token) as [count|] eqn:Hlookup.
      * assert (token ∈ trackedTokens st) as Htracked.
        { rewrite <- (Hdom f). apply elem_of_dom. by exists count. }
        by rewrite (Hforeign token Hmember Htracked f).
      * rewrite getMember_foreign; [|unfold ordinaryToken; by intros Hnot|done].
        by rewrite sub_NaN_r.
    + rewrite getMember_ordinary, lookup_delete_eq by done.
      apply sub_zero. rewrite remove_total. apply sub_representable.
  - rewrite !remove_map. apply delete_delete_eq.
Qed.

(** X5: tracking a new conversation and removing it again is a round trip:
    on an exact store that the update leaves exact, for a token the store
    does not track, an update followed by the removal of that token restores
    the totals and the maps. *)
Theorem update_then_remove_restores (st : State) (p : Payload.t) :
  exactStore st →
  exactRun st [DoUpdate p] →
  (∀ f, mapOf f st !! Payload.token p = None) →
  (actions.removeConversation
     (actions.updateConversationCounts st p).1 (Payload.token p)).1
  = st.
Proof.
  intros Hst (Hordinary & Hnonneg & Hrange & _) Hnone.
  apply Forall_cons in Hordinary as [Hordinary _].
  apply Forall_cons in Hnonneg as [Hnonneg _].
  assert (∀ f, mapOf f
                 (actions.removeConversation
                    (actions.updateConversationCounts st p).1
                    (Payload.token p)).1
               = mapOf f st) as Hmaps.
  { intros f. rewrite remove_map, update_map. by apply delete_insert_id. }
  apply exactStore_eq; [|done|done].
  apply (exactStore_dispatch _ (DoRemove (Payload.token p))); [|done|done|].
  - by apply (exactStore_dispatch st (DoUpdate p)).
  - intros f. change (dispatch ?s (DoRemove ?t)) with (actions.removeConversation s t).
    rewrite Hmaps. apply Hst.
Qed.

(** X6: removing a conversation before updating it is the same as updating
    it directly: both leave the same totals and maps, provided the store is
    exact and the update leaves it exact. *)
Theorem remove_then_update_is_update (st : State) (p : Payload.t) :
  exactStore st →
  exactRun st [DoUpdate p] →
  (actions.updateConversationCounts
     (actions.removeConversation st (Payload.token p)).1 p).1
  = (actions.updateConversationCounts st p).1.
Proof.
  intros Hst (Hordinary & Hnonneg & Hrange & _).
  apply Forall_cons in Hordinary as [Hordinary _].
  apply Forall_cons in Hnonneg as [Hnonneg _].
  assert (∀ f, mapOf f
                 (actions.updateConversationCounts
                    (actions.removeConversation st (Payload.token p)).1 p).1
               = mapOf f (actions.updateConversationCounts st p).1) as Hmaps.
  { intros f. rewrite !update_map, remove_map. apply insert_delete_eq. }
  assert (exactStore (actions.removeConversation st (Payload.token p)).1)
    as Hremoved.
  { apply (exactStore_dispatch st (DoRemove (Payload.token p)));
      [done|done|done|].
    intros f. change (dispatch ?s (DoRemove ?t)) with (actions.removeConversation s t).
    rewrite remove_map, sumCounts_delete.
    destruct Hst as (_ & Hcounts & Hwithin).
    pose proof (Hwithin f).
    destruct (mapOf f st !! Payload.token p) as [old|] eqn:Hlookup; simpl; [|lia].
    pose proof (Hcounts f _ _ Hlookup). lia. }
  apply exactStore_eq; [| |done].
  - apply (exactStore_dispatch _ (DoUpdate p)); [done|done|done|].
    intros f. change (dispatch ?s (DoUpdate ?q)) with (actions.updateConversationCounts s q).
    rewrite Hmaps. apply Hrange.
  - by apply (exactStore_dispatch st (DoUpdate p)).
Qed.

Lemma dispatchAll_events (st : State) (ops : list CountOp) :
  length (dispatchAll st ops).2 = length ops ∧
  (ops ≠ [] →
   last (dispatchAll st ops).2 = Some (emitTotals (dispatchAll st ops).1)).
Proof.
  revert st. induction ops as [|op rest IH]; intros st.
  - split; [done | congruence].
  - rewrite dispatchAll_cons, andThen_fst, andThen_snd, dispatch_emits.
    destruct (IH (dispatch st op).1) as [IHlength IHlast].
    split.
    + rewrite length_app, IHlength. done.
    + intros _. destruct rest as [|op' rest'].
      * done.
      * rewrite last_app, IHlast by done. done.
Qed.

(** X7: a run of counting operations emits exactly one event per operation,
    and unless the run is empty the last event carries the totals the
    getters return afterwards. *)
Theorem last_event_carries_final_totals (st : State) (ops : list CountOp) :
  length (dispatchAll st ops).2 = length ops ∧
  (ops ≠ [] →
   last (dispatchAll st ops).2
   = Some (Emitted "talk:unread:updated"
             (UnreadCountEvent.mk
                (getters.getTotalUnreadMessages (dispatchAll st ops).1)
                (getters.getTotalUnreadMentions (dispatchAll st ops).1)
                (getters.getTotalUnreadMentionDirect (dispatchAll st ops).1)))).
Proof.
  destruct (dispatchAll_events st ops) as [Hlength Hlast].
  split; [exact Hlength|]. intros Hnonempty. exact (Hlast Hnonempty).
Qed.

Lemma forEachConversation_as_updates (cs : list Conversation.t) (st : State) :
  actions.forEachConversation st cs
  = dispatchAll st ((λ c, DoUpdate (conversationPayload c)) <$> cs).
Proof.
  revert st. induction cs as [|c rest IH]; intros st.
  - done.
  - rewrite forEachConversation_cons, fmap_cons, dispatchAll_cons.
    unfold andThen. simpl dispatch.
    destruct (actions.updateConversationCounts st (conversationPayload c))
      as [st1 evs1].
    by rewrite IH.
Qed.

(** X8: a recalculation forgets whatever the store held: from any prior
    state it leaves the state, and emits the events, that one update per
    listed conversation, in list order, produces on the initial store. *)
Theorem recalculate_replays_updates_on_fresh_store
    (st : State) (cs : list Conversation.t) :
  actions.recalculateTotalUnreadCounters st (Some cs)
  = dispatchAll state ((λ c, DoUpdate (conversationPayload c)) <$> cs).
Proof.
  rewrite recalculate_listed. apply forEachConversation_as_updates.
Qed.

(** X9: a recalculation over a non-empty list emits one event per listed
    conversation, the last of which carries the recalculated totals. *)
Theorem recalculate_announces_final_totals
    (st : State) (cs : list Conversation.t) :
  let result := actions.recalculateTotalUnreadCounters st (Some cs) in
  length result.2 = length cs ∧
  (cs ≠ [] →
   last result.2
   = Some (Emitted "talk:unread:updated"
             (UnreadCountEvent.mk (totalUnreadMessages result.1)
                (totalUnreadMentions result.1)
                (totalUnreadMentionDirect result.1)))).
Proof.
  intros result. subst result.
  rewrite recalculate_listed, forEachConversation_as_updates.
  destruct (dispatchAll_events state
              ((λ c, DoUpdate (conversationPayload c)) <$> cs))
    as [Hlength Hlast].
  split.
  - by rewrite Hlength, length_fmap.
  - intros Hnonempty. apply Hlast. by destruct cs.
Qed.

Lemma listTotal_nonneg (f : Field) (cs : list Conversation.t) :
  (∀ c, c ∈ cs → 0 ≤ or0 (conversationField f c)) → 0 ≤ listTotal f cs.
Proof.
  induction cs as [|c rest IH]; intros Hcounts; simpl; [done|].
  assert (0 ≤ or0 (conversationField f c)) by (apply Hcounts; left).
  assert (0 ≤ listTotal f rest); [|lia].
  apply IH. intros c' Hin. apply Hcounts. by right.
Qed.

(** Listing exact conversations with fresh, pairwise different tokens on an
    exact store adds their counts to the totals without rounding. *)
Lemma forEachConversation_exact (cs : list Conversation.t) (st : State) :
  exactStore st →
  NoDup (listTokens cs) →
  (∀ token f, token ∈ listTokens cs → mapOf f st !! token = None) →
  Forall ordinaryToken (listTokens cs) →
  (∀ c f, c ∈ cs → 0 ≤ or0 (conversationField f c)) →
  (∀ f, sumCounts (mapOf f st) + listTotal f cs ≤ maxExactInteger) →
  exactStore (actions.forEachConversation st cs).1 ∧
  (∀ f, sumCounts (mapOf f (actions.forEachConversation st cs).1)
        = sumCounts (mapOf f st) + listTotal f cs).
Proof.
  revert st.
  induction cs as [|c rest IH];
    intros st Hst Hnodup Hfresh Hordinary Hcounts Hbound.
  - split; [done|]. intros f. simpl. lia.
  - apply NoDup_cons in Hnodup as [Hc Hrest].
    apply Forall_cons in Hordinary as [Hordinary1 Hordinary].
    assert (∀ f, sumCounts
                   (mapOf f
                      (actions.updateConversationCounts st
                         (conversationPayload c)).1)
                 = sumCounts (mapOf f st) + or0 (conversationField f c))
      as Hstep.
    { intros f. rewrite forEachConversation_step_map, sumCounts_insert.
      rewrite (Hfresh (Conversation.token c) f) by (simpl; left). simpl. lia. }
    assert (∀ f, 0 ≤ listTotal f rest) as Hrest0.
    { intros f. apply listTotal_nonneg. intros c' Hin.
      apply Hcounts. by right. }
    assert (exactStore
              (actions.updateConversationCounts st (conversationPayload c)).1)
      as Hst1.
    { apply (exactStore_dispatch st (DoUpdate (conversationPayload c)));
        [done|done| |].
      - intros f. rewrite conversationPayload_field. apply Hcounts. left.
      - intros f.
        change (dispatch ?s (DoUpdate ?q))
          with (actions.updateConversationCounts s q).
        rewrite Hstep. pose proof (Hbound f) as Hf. simpl in Hf.
        pose proof (Hrest0 f). lia. }
    rewrite forEachConversation_cons, andThen_fst.
    destruct (IH (actions.updateConversationCounts st (conversationPayload c)).1)
      as [Hexact Hsums]; [done|done| |done| | |].
    + intros token f Hin.
      rewrite forEachConversation_step_map, lookup_insert_ne.
      * apply Hfresh. simpl. by right.
      * intros Heq. apply Hc. by rewrite Heq.
    + intros c' f Hin. apply Hcounts. by right.
    + intros f. rewrite Hstep. pose proof (Hbound f) as Hf. simpl in Hf. lia.
    + split; [done|]. intros f. rewrite Hsums, Hstep. simpl. lia.
Qed.

Lemma recalculate_exact (st : State) (cs : list Conversation.t) :
  NoDup (listTokens cs) →
  exactList cs →
  exactStore (actions.recalculateTotalUnreadCounters st (Some cs)).1 ∧
  (∀ f, sumCounts
          (mapOf f (actions.recalculateTotalUnreadCounters st (Some cs)).1)
        = listTotal f cs).
Proof.
  intros Hnodup (Hordinary & Hcounts & Hbound).
  rewrite recalculate_listed.
  destruct (forEachConversation_exact cs state) as [Hexact Hsums];
    [apply exactStore_initial|done| |done|done| |].
  - intros token f _. by destruct f.
  - intros f. destruct f; simpl; rewrite sumCounts_empty; apply Hbound.
  - split; [done|]. intros f. rewrite Hsums.
    destruct f; simpl; rewrite sumCounts_empty; lia.
Qed.

(** X10: over a list whose tokens are pairwise different and not names of
    foreign members, with non-negative counts that add up to at most 2^53,
    a recalculation leaves each total equal to the sum of that counter over
    the listed conversations, a missing counter counting as zero, whatever
    the store held before. *)
Theorem recalculate_totals_are_list_sums
    (st : State) (cs : list Conversation.t) (f : Field) :
  NoDup (listTokens cs) →
  exactList cs →
  totalOf f (actions.recalculateTotalUnreadCounters st (Some cs)).1
  = listTotal f cs.
Proof.
  intros Hnodup Hexact.
  destruct (recalculate_exact st cs Hnodup Hexact)
    as [((Hsum & _) & _) Hsums].
  by rewrite Hsum, Hsums.
Qed.

Lemma forEachConversation_dom
    (f : Field) (cs : list Conversation.t) (st : State) :
  dom (mapOf f (actions.forEachConversation st cs).1)
  = list_to_set (listTokens cs) ∪ dom (mapOf f st).
Proof.
  revert st. induction cs as [|c rest IH]; intros st.
  - simpl. by rewrite (left_id_L ∅ (∪)).
  - rewrite forEachConversation_cons, andThen_fst, IH.
    rewrite forEachConversation_step_map, dom_insert_L. simpl.
    rewrite (assoc_L (∪)).
    by rewrite (comm_L (∪) (list_to_set (listTokens rest))).
Qed.

(** X11: after a recalculation the store tracks exactly the tokens of the
    listed conversations: every listed token has an entry in each map, and a
    token tracked before but no longer listed is dropped. *)
Theorem recalculate_tracks_exactly_the_listed
    (st : State) (cs : list Conversation.t) (f : Field) (token : string) :
  is_Some (mapOf f (actions.recalculateTotalUnreadCounters st (Some cs)).1
             !! token)
  ↔ token ∈ listTokens cs.
Proof.
  rewrite recalculate_listed, <- elem_of_dom, forEachConversation_dom.
  assert (dom (mapOf f state) = (∅ : gset string)) as ->
    by (destruct f; apply dom_empty_L).
  by rewrite (right_id_L ∅ (∪)), elem_of_list_to_set.
Qed.

(** The maps a listing leaves are those obtained by inserting the listed
    counts in order. *)
Lemma forEachConversation_maps
    (f : Field) (cs : list Conversation.t) (st : State) :
  mapOf f (actions.forEachConversation st cs).1
  = foldl (λ m c, <[Conversation.token c := or0 (conversationField f c)]> m)
      (mapOf f st) cs.
Proof.
  revert st. induction cs as [|c rest IH]; intros st.
  - done.
  - by rewrite forEachConversation_cons, andThen_fst, IH,
      forEachConversation_step_map.
Qed.

Lemma insertAll_permutation (f : Field) (cs cs' : list Conversation.t) :
  cs ≡ₚ cs' →
  NoDup (listTokens cs) →
  ∀ m : gmap string Z,
    foldl (λ m c, <[Conversation.token c := or0 (conversationField f c)]> m) m cs
    = foldl (λ m c, <[Conversation.token c := or0 (conversationField f c)]> m)
        m cs'.
Proof.
  induction 1 as [|c l l' Hperm IH|c1 c2 l|l1 l2 l3 Hperm12 IH12 Hperm23 IH23];
    intros Hnodup m.
  - done.
  - apply NoDup_cons in Hnodup as [_ Hrest]. simpl. by apply IH.
  - apply NoDup_cons in Hnodup as [Hfirst _]. simpl.
    rewrite insert_insert_ne; [done|].
    intros Heq. apply Hfirst. simpl. rewrite Heq. by left.
  - rewrite IH12 by done. apply IH23.
    unfold listTokens in *. by rewrite <- Hperm12.
Qed.

Lemma listTotal_permutation (f : Field) (cs cs' : list Conversation.t) :
  cs ≡ₚ cs' → listTotal f cs = listTotal f cs'.
Proof.
  induction 1 as [|c l l' Hperm IH|c1 c2 l|l1 l2 l3 Hperm12 IH12 Hperm23 IH23];
    simpl; [done | by rewrite IH | lia | congruence].
Qed.

Lemma exactList_permutation (cs cs' : list Conversation.t) :
  cs ≡ₚ cs' → exactList cs → exactList cs'.
Proof.
  intros Hperm (Hordinary & Hcounts & Hbound). split; [|split].
  - unfold listTokens in *. by rewrite <- Hperm.
  - intros c f Hin. apply Hcounts. by rewrite Hperm.
  - intros f. rewrite <- (listTotal_permutation f cs cs') by done. apply Hbound.
Qed.

(** X12: over a list whose tokens are pairwise different and not names of
    foreign members, with non-negative counts that add up to at most 2^53,
    the state a recalculation leaves does not depend on the order in which
    the conversations are listed. *)
Theorem recalculate_ignores_list_order
    (st : State) (cs cs' : list Conversation.t) :
  cs ≡ₚ cs' →
  NoDup (listTokens cs) →
  exactList cs →
  (actions.recalculateTotalUnreadCounters st (Some cs)).1
  = (actions.recalculateTotalUnreadCounters st (Some cs')).1.
Proof.
  intros Hperm Hnodup Hexact.
  assert (NoDup (listTokens cs')) as Hnodup'
    by (unfold listTokens in *; by rewrite <- Hperm).
  destruct (recalculate_exact st cs Hnodup Hexact) as [Hstore _].
  destruct (recalculate_exact st cs' Hnodup'
              (exactList_permutation cs cs' Hperm Hexact)) as [Hstore' _].
  apply exactStore_eq; [done|done|].
  intros f. rewrite !recalculate_listed, !forEachConversation_maps.
  by apply insertAll_permutation.
Qed.

(** X13: when a token is listed more than once, the last listing decides:
    after a recalculation the counts stored for a conversation's token are
    those of that conversation, provided no later entry of the list has the
    same token. *)
Theorem recalculate_last_listing_wins
    (st : State) (before after : list Conversation.t) (c : Conversation.t)
    (f : Field) :
  Conversation.token c ∉ listTokens after →
  mapOf f
    (actions.recalculateTotalUnreadCounters st (Some (before ++ c :: after))).1
    !! Conversation.token c
  = Some (default 0 (conversationField f c)).
Proof.
  intros Hlast.
  rewrite recalculate_listed, forEachConversation_lookup_last, or0_default;
    [done|].
  intros c' Hin Heq. apply Hlast. rewrite <- Heq.
  unfold listTokens. apply list_elem_of_fmap. by exists c'.
Qed.

(** X14: a counting operation never repairs and never introduces a
    disagreement between a total and its map: for a token that is not the
    name of a foreign member and a total that is an integer, the total
    changes by exactly the amount by which the sum of the stored counts
    changes, as long as that amount and the new total are at most 2^53 in
    magnitude. *)
Theorem counting_operations_conserve_drift
    (st : State) (op : CountOp) (f : Field) (total : Z) :
  ordinaryToken (opToken op) →
  totalOf f st = Finite total →
  let change :=
    sumCounts (mapOf f (dispatch st op).1) - sumCounts (mapOf f st) in
  Z.abs change ≤ maxExactInteger →
  Z.abs (total + change) ≤ maxExactInteger →
  totalOf f (dispatch st op).1 = Finite (total + change).
Proof.
  intros Hordinary Htotal change Hchange Hnew. subst change.
  rewrite dispatch_map in Hchange, Hnew |- *.
  destruct op as [p|removed].
  - change (dispatch st (DoUpdate p))
      with (actions.updateConversationCounts st p).
    change (opToken (DoUpdate p)) with (Payload.token p) in *.
    rewrite sumCounts_insert in Hchange, Hnew |- *.
    rewrite update_total, Htotal, getMember_ordinary by done.
    rewrite sub_exact by lia. rewrite add_exact by lia. f_equal. lia.
  - change (dispatch st (DoRemove removed))
      with (actions.removeConversation st removed).
    change (opToken (DoRemove removed)) with removed in *.
    rewrite sumCounts_delete in Hchange, Hnew |- *.
    rewrite remove_total, Htotal, getMember_ordinary by done.
    rewrite sub_exact by lia. f_equal. lia.
Qed.

(** X15: a recalculation repairs any such disagreement: from every prior
    state, consistent or not, it leaves each total equal to the sum of the
    counts stored in its map, provided the updates it replays form an exact
    run from the initial store. *)
Theorem recalculate_restores_consistency
    (st : State) (cs : list Conversation.t) (f : Field) :
  exactRun state (listUpdates cs) →
  totalOf f (actions.recalculateTotalUnreadCounters st (Some cs)).1
  = sumCounts
      (mapOf f (actions.recalculateTotalUnreadCounters st (Some cs)).1).
Proof.
  intros Hrun.
  rewrite recalculate_listed, forEachConversation_as_updates.
  destruct (exactStore_dispatchAll (listUpdates cs) state exactStore_initial Hrun)
    as ((Hsum & _) & _).
  apply Hsum.
Qed.

(** X16: on an exact run from the initial state (no token naming a foreign
    member, no negative count, tracked counts adding up to at most 2^53)
    every total is the non-negative sum of the stored counts, and no
    conversation's stored count exceeds the corresponding total. *)
Theorem totals_bound_the_stored_counts (ops : list CountOp) (f : Field) :
  exactRun state ops →
  ∃ total : Z,
    totalOf f (dispatchAll state ops).1 = Finite total ∧
    0 ≤ total ≤ maxExactInteger ∧
    (∀ token count,
       mapOf f (dispatchAll state ops).1 !! token = Some count →
       0 ≤ count ≤ total).
Proof.
  intros Hrun.
  destruct (exactStore_dispatchAll ops state exactStore_initial Hrun)
    as ((Hsum & _) & Hcounts & Hrange).
  exists (sumCounts (mapOf f (dispatchAll state ops).1)).
  split; [apply Hsum|]. split.
  - split; [apply sumCounts_nonneg, Hcounts | apply Hrange].
  - intros token count Hlookup. split; [by apply (Hcounts f token)|].
    apply (sumCounts_bounds_entry _ token); [apply Hcounts | done].
Qed.
(** ** The further properties at concrete inputs *)

Lemma operations_on_distinct_tokens_commute_witness :
  exactStore state ∧
  exactRun state
    [DoUpdate (conversationPayload conversationT1);
     DoUpdate (conversationPayload conversationT2)] ∧
  exactRun state
    [DoUpdate (conversationPayload conversationT2);
     DoUpdate (conversationPayload conversationT1)] ∧
  opToken (DoUpdate (conversationPayload conversationT1))
  ≠ opToken (DoUpdate (conversationPayload conversationT2)) ∧
  (dispatch (dispatch state (DoUpdate (conversationPayload conversationT1))).1
     (DoUpdate (conversationPayload conversationT2))).1
  = (dispatch (dispatch state (DoUpdate (conversationPayload conversationT2))).1
       (DoUpdate (conversationPayload conversationT1))).1.
Proof.
  assert (exactRun state
            [DoUpdate (conversationPayload conversationT1);
             DoUpdate (conversationPayload conversationT2)]) as Hrun12
    by concrete_exactRun.
  assert (exactRun state
            [DoUpdate (conversationPayload conversationT2);
             DoUpdate (conversationPayload conversationT1)]) as Hrun21
    by concrete_exactRun.
  split; [exact exactStore_initial|].
  split; [exact Hrun12|]. split; [exact Hrun21|].
  split; [discriminate|].
  apply operations_on_distinct_tokens_commute;
    [exact exactStore_initial | exact Hrun12 | exact Hrun21 | discriminate].
Defined.

Lemma later_update_overwrites_earlier_witness :
  exactStore state ∧
  exactRun state
    [DoUpdate (conversationPayload conversationT1Stale);
     DoUpdate (conversationPayload conversationT1)] ∧
  exactRun state [DoUpdate (conversationPayload conversationT1)] ∧
  Payload.token (conversationPayload conversationT1Stale)
  = Payload.token (conversationPayload conversationT1) ∧
  (actions.updateConversationCounts
     (actions.updateConversationCounts state
        (conversationPayload conversationT1Stale)).1
     (conversationPayload conversationT1)).1
  = (actions.updateConversationCounts state
       (conversationPayload conversationT1)).1.
Proof.
  assert (exactRun state
            [DoUpdate (conversationPayload conversationT1Stale);
             DoUpdate (conversationPayload conversationT1)]) as Hboth
    by concrete_exactRun.
  assert (exactRun state [DoUpdate (conversationPayload conversationT1)])
    as Hlast by concrete_exactRun.
  split; [exact exactStore_initial|].
  split; [exact Hboth|]. split; [exact Hlast|]. split; [reflexivity|].
  apply later_update_overwrites_earlier;
    [exact exactStore_initial | exact Hboth | exact Hlast | reflexivity].
Defined.

Lemma oneConversationState_reachable : Reachable oneConversationState.
Proof.
  exact (reachable_commit state
           (CommitUpdate (Payload.mk "t1" (Some 5) (Some 1) (Some 0)))
           reachable_initial).
Qed.

Lemma removing_untracked_token_changes_nothing_witness :
  Reachable oneConversationState ∧
  ordinaryToken "t2" ∧
  (∀ f, mapOf f oneConversationState !! "t2" = None) ∧
  actions.removeConversation oneConversationState "t2"
  = (oneConversationState,
     [Emitted "talk:unread:updated"
        (UnreadCountEvent.mk (totalUnreadMessages oneConversationState)
           (totalUnreadMentions oneConversationState)
           (totalUnreadMentionDirect oneConversationState))]).
Proof.
  assert (ordinaryToken "t2") as Hordinary by concrete_ordinary.
  assert (∀ f, mapOf f oneConversationState !! "t2" = None) as Hnone
    by (intros []; vm_compute; reflexivity).
  split; [exact oneConversationState_reachable|].
  split; [exact Hordinary|]. split; [exact Hnone|].
  exact (removing_untracked_token_changes_nothing oneConversationState "t2"
           oneConversationState_reachable Hordinary Hnone).
Defined.

Lemma removeConversation_idempotent_witness :
  Reachable oneConversationState ∧
  (actions.removeConversation
     (actions.removeConversation oneConversationState "t1").1 "t1").1
  = (actions.removeConversation oneConversationState "t1").1.
Proof.
  split; [exact oneConversationState_reachable|].
  exact (removeConversation_idempotent oneConversationState "t1"
           oneConversationState_reachable).
Defined.

Lemma update_then_remove_restores_witness :
  exactStore state ∧
  exactRun state [DoUpdate (conversationPayload conversationT2)] ∧
  (∀ f, mapOf f state
          !! Payload.token (conversationPayload conversationT2) = None) ∧
  (actions.removeConversation
     (actions.updateConversationCounts state
        (conversationPayload conversationT2)).1
     (Payload.token (conversationPayload conversationT2))).1
  = state.
Proof.
  assert (exactRun state [DoUpdate (conversationPayload conversationT2)])
    as Hrun by concrete_exactRun.
  assert (∀ f, mapOf f state
                 !! Payload.token (conversationPayload conversationT2) = None)
    as Hnone by (intros []; vm_compute; reflexivity).
  split; [exact exactStore_initial|]. split; [exact Hrun|].
  split; [exact Hnone|].
  exact (update_then_remove_restores state
           (conversationPayload conversationT2) exactStore_initial Hrun Hnone).
Defined.

Lemma remove_then_update_is_update_witness :
  exactStore state ∧
  exactRun state [DoUpdate (conversationPayload conversationT1)] ∧
  (actions.updateConversationCounts
     (actions.removeConversation state
        (Payload.token (conversationPayload conversationT1))).1
     (conversationPayload conversationT1)).1
  = (actions.updateConversationCounts state
       (conversationPayload conversationT1)).1.
Proof.
  assert (exactRun state [DoUpdate (conversationPayload conversationT1)])
    as Hrun by concrete_exactRun.
  split; [exact exactStore_initial|]. split; [exact Hrun|].
  exact (remove_then_update_is_update state
           (conversationPayload conversationT1) exactStore_initial Hrun).
Defined.

Lemma last_event_carries_final_totals_witness :
  [DoUpdate (conversationPayload conversationT1); DoRemove "t1"] ≠ [] ∧
  last (dispatchAll state
          [DoUpdate (conversationPayload conversationT1); DoRemove "t1"]).2
  = Some (Emitted "talk:unread:updated" (UnreadCountEvent.mk 0 0 0)).
Proof.
  split; [discriminate|].
  destruct (last_event_carries_final_totals state
              [DoUpdate (conversationPayload conversationT1); DoRemove "t1"])
    as [_ Hlast].
  etrans; [apply Hlast; discriminate|]. vm_compute. reflexivity.
Defined.

Lemma recalculate_announces_final_totals_witness :
  [conversationT1; conversationT2] ≠ [] ∧
  last (actions.recalculateTotalUnreadCounters driftedState
          (Some [conversationT1; conversationT2])).2
  = Some (Emitted "talk:unread:updated" (UnreadCountEvent.mk 7 1 1)).
Proof.
  split; [discriminate|].
  pose proof (recalculate_announces_final_totals driftedState
                [conversationT1; conversationT2]) as Hrecalc.
  cbv zeta in Hrecalc. destruct Hrecalc as [_ Hlast].
  etrans; [apply Hlast; discriminate|]. vm_compute. reflexivity.
Defined.

Lemma recalculate_tracks_exactly_the_listed_witness :
  "t2" ∈ listTokens [conversationT1; conversationT2] ∧
  is_Some (mapOf Mentions
             (actions.recalculateTotalUnreadCounters driftedState
                (Some [conversationT1; conversationT2])).1 !! "t2") ∧
  mapOf Mentions driftedState !! "gone" = Some 4 ∧
  mapOf Mentions
    (actions.recalculateTotalUnreadCounters driftedState
       (Some [conversationT1; conversationT2])).1 !! "gone" = None.
Proof.
  assert ("t2" ∈ listTokens [conversationT1; conversationT2]) as Hlisted
    by (right; left).
  split; [exact Hlisted|]. split.
  - by apply recalculate_tracks_exactly_the_listed.
  - split; [vm_compute; reflexivity|].
    apply eq_None_not_Some. intros Hsome.
    apply recalculate_tracks_exactly_the_listed in Hsome.
    apply elem_of_cons in Hsome as [Heq|Hsome]; [discriminate|].
    apply list_elem_of_singleton in Hsome. discriminate.
Defined.

Lemma recalculate_last_listing_wins_witness :
  (Conversation.token conversationT1 ∉ listTokens [conversationT2]) ∧
  mapOf Messages
    (actions.recalculateTotalUnreadCounters state
       (Some ([conversationT1Stale] ++ conversationT1 :: [conversationT2]))).1
    !! "t1"
  = Some 5.
Proof.
  assert (Conversation.token conversationT1 ∉ listTokens [conversationT2])
    as Hlast.
  { intros Hin. apply list_elem_of_singleton in Hin. discriminate. }
  split; [exact Hlast|].
  exact (recalculate_last_listing_wins state [conversationT1Stale]
           [conversationT2] conversationT1 Messages Hlast).
Defined.

Lemma distinct_tokens_t1_t2 : NoDup (listTokens [conversationT1; conversationT2]).
Proof.
  apply NoDup_cons. split.
  - intros Hin. apply list_elem_of_singleton in Hin. discriminate.
  - apply NoDup_singleton.
Qed.

Lemma exactList_t1_t2 : exactList [conversationT1; conversationT2].
Proof.
  split; [|split].
  - repeat (apply Forall_cons_2; [concrete_ordinary|]). apply Forall_nil_2.
  - intros c f Hin.
    apply elem_of_cons in Hin as [->|Hin];
      [|apply list_elem_of_singleton in Hin as ->];
      destruct f; concrete_bound.
  - intros []; concrete_bound.
Qed.

Lemma recalculate_totals_are_list_sums_witness :
  NoDup (listTokens [conversationT1; conversationT2]) ∧
  exactList [conversationT1; conversationT2] ∧
  totalOf Messages
    (actions.recalculateTotalUnreadCounters driftedState
       (Some [conversationT1; conversationT2])).1
  = Finite (5 + (2 + 0)).
Proof.
  split; [exact distinct_tokens_t1_t2|]. split; [exact exactList_t1_t2|].
  exact (recalculate_totals_are_list_sums driftedState
           [conversationT1; conversationT2] Messages
           distinct_tokens_t1_t2 exactList_t1_t2).
Defined.

Lemma recalculate_ignores_list_order_witness :
  [conversationT1; conversationT2] ≡ₚ [conversationT2; conversationT1] ∧
  NoDup (listTokens [conversationT1; conversationT2]) ∧
  exactList [conversationT1; conversationT2] ∧
  (actions.recalculateTotalUnreadCounters driftedState
     (Some [conversationT1; conversationT2])).1
  = (actions.recalculateTotalUnreadCounters driftedState
       (Some [conversationT2; conversationT1])).1.
Proof.
  split; [apply perm_swap|]. split; [exact distinct_tokens_t1_t2|].
  split; [exact exactList_t1_t2|].
  apply recalculate_ignores_list_order;
    [apply perm_swap | exact distinct_tokens_t1_t2 | exact exactList_t1_t2].
Defined.

Lemma counting_operations_conserve_drift_witness :
  ordinaryToken (opToken (DoUpdate (conversationPayload conversationT2))) ∧
  totalOf Messages driftedState = Finite 7 ∧
  totalOf Messages
    (dispatch driftedState (DoUpdate (conversationPayload conversationT2))).1
  = Finite (7 + (2 - 0)).
Proof.
  assert (ordinaryToken (opToken (DoUpdate (conversationPayload conversationT2))))
    as Hordinary by concrete_ordinary.
  split; [exact Hordinary|]. split; [reflexivity|].
  pose proof (counting_operations_conserve_drift driftedState
                (DoUpdate (conversationPayload conversationT2)) Messages 7
                Hordinary eq_refl) as Hdrift.
  cbv zeta in Hdrift.
  etrans; [apply Hdrift; concrete_bound|]. vm_compute. reflexivity.
Defined.

Lemma recalculate_restores_consistency_witness :
  exactRun state
    (listUpdates [conversationT1Stale; conversationT1; conversationT2]) ∧
  totalOf Messages
    (actions.recalculateTotalUnreadCounters driftedState
       (Some [conversationT1Stale; conversationT1; conversationT2])).1
  = Finite
      (sumCounts
         (mapOf Messages
            (actions.recalculateTotalUnreadCounters driftedState
               (Some [conversationT1Stale; conversationT1; conversationT2])).1)).
Proof.
  assert (exactRun state
            (listUpdates [conversationT1Stale; conversationT1; conversationT2]))
    as Hrun by concrete_exactRun.
  split; [exact Hrun|].
  exact (recalculate_restores_consistency driftedState
           [conversationT1Stale; conversationT1; conversationT2] Messages Hrun).
Defined.

Lemma totals_bound_the_stored_counts_witness :
  exactRun state
    [DoUpdate (conversationPayload conversationT1);
     DoUpdate (conversationPayload conversationT2); DoRemove "t1"] ∧
  ∃ total : Z,
    totalOf Messages
      (dispatchAll state
         [DoUpdate (conversationPayload conversationT1);
          DoUpdate (conversationPayload conversationT2); DoRemove "t1"]).1
    = Finite total ∧ 0 ≤ total.
Proof.
  assert (exactRun state
            [DoUpdate (conversationPayload conversationT1);
             DoUpdate (conversationPayload conversationT2); DoRemove "t1"])
    as Hrun by concrete_exactRun.
  split; [exact Hrun|].
  destruct (totals_bound_the_stored_counts _ Messages Hrun)
    as (total & Htotal & [Hnonneg _] & _).
  exists total. split; [exact Htotal | exact Hnonneg].
Defined.
